(** * Leave-one-out splitting and negative sampling of [convert.py]

    A shallow embedding of [main] of [convert.py]: the minimum-ratings
    filter, the remapping of raw identifiers to dense indices, the
    per-user leave-one-out split, the sampling of negatives and the three
    tables that are written out.

    Python integers are [Z]; a [DataFrame] is the list of its rows in row
    order; [dict] and [defaultdict] are [gmap]; [set] is [gset]; raised
    exceptions are the [Err] results of a small state-and-error monad
    whose state is numpy's global generator.

    The module [EvalNcf] embeds the loop of [get_movielens_iter] of
    [eval_ncf.py] that parses a file of ratings. *)

From stdpp Require Import base list gmap sets sorting strings pretty.
From Stdlib Require Import ZArith Lia Ascii.

Local Open Scope Z_scope.

(** ** Exceptions and the monad of [main] *)

Inductive exn : Set :=
| AssertionError
| KeyError
| IndexError
| ValueError
| OverflowError
| MemoryError.

(** The exceptions that the calls into [np.random] end in. *)
Definition library_error (e : exn) : Prop :=
  e = ValueError ∨ e = OverflowError ∨ e = MemoryError.

Inductive result (A : Type) : Type :=
| Ok (a : A)
| Err (e : exn).
Arguments Ok {A} a.
Arguments Err {A} e.

Definition result_bind {A B} (k : A → result B) (r : result A) : result B :=
  match r with
  | Ok a => k a
  | Err e => Err e
  end.

#[global] Instance result_ret : MRet result := @Ok.
#[global] Instance result_mbind : MBind result := @result_bind.

(** ** What the libraries provide

    [np.random], [DataFrame.sort_values] and the iteration order of a
    Python [set] are not code of the repository.  They enter as an
    interface: a generator state with a seeding function and one bounded
    draw; the numbers of draws that [np.random.choice] delivers in one
    call, with the exception it raises on any other number; a sort of the
    rows by timestamp with the guarantee of the
    default [kind], which [main] uses (the result holds the same rows, in
    ascending timestamp order; the default is not a stable sort); and an
    enumeration of the elements of a set. *)

Record row : Set := Row { user_id : Z; item_id : Z; timestamp : Z }.

Abbreviation DataFrame := (list row).

Definition by_timestamp (a b : row) : Prop := timestamp a ≤ timestamp b.

Class Libraries := {
  (** state of the global [np.random] generator *)
  RandomState : Type;
  (** [np.random.seed(s)]: the state after seeding *)
  np_seed : Z → RandomState;
  (** one draw of [randint(0, n)] and the state after it *)
  np_randint : Z → RandomState → Z * RandomState;
  np_randint_range :
    ∀ n g, 0 < n → 0 ≤ (np_randint n g).1 < n;
  (** [np.random.choice(a, size)]: [None] when the library builds the
      array of [size] draws, otherwise the exception it raises.  A
      negative [size], and one that does not fit a C long, is never
      delivered; how much below that limit fits in memory is the
      machine's. *)
  np_size_error : Z → option exn;
  np_size_error_range :
    ∀ n, np_size_error n = None → 0 ≤ n < 2 ^ 63;
  np_size_error_kind :
    ∀ n e, np_size_error n = Some e → library_error e;
  (** [df.sort_values(by='timestamp')], default [kind] *)
  sort_values : DataFrame → DataFrame;
  sort_values_perm : ∀ df, sort_values df ≡ₚ df;
  sort_values_sorted : ∀ df, Sorted by_timestamp (sort_values df);
  (** iteration order of a [set] of pairs, as [list(s)] sees it *)
  set_iter : gset (Z * Z) → list (Z * Z);
  set_iter_perm : ∀ s, set_iter s ≡ₚ elements s
}.

(** ** Constants of the script *)

Definition MIN_RATINGS : Z := 20.

Definition len {A} (l : list A) : Z := Z.of_nat (length l).

(** ** Loader and filter: [grouped.filter(lambda x: len(x) >= MIN_RATINGS)] *)

Definition group (df : DataFrame) (u : Z) : DataFrame :=
  filter (λ r, user_id r = u) df.

Definition filter_min_ratings (df : DataFrame) : DataFrame :=
  filter (λ r, MIN_RATINGS ≤ len (group df (user_id r))) df.

(** ** Identifier remapper *)

(** [Series.unique()]: the distinct values in order of first appearance. *)
Fixpoint unique (l : list Z) : list Z :=
  match l with
  | [] => []
  | x :: l' => x :: filter (λ y, y ≠ x) (unique l')
  end.

Definition enumerate {A} (l : list A) : list (Z * A) :=
  imap (λ i x, (Z.of_nat i, x)) l.

(** [{v: index for index, v in enumerate(l)}] *)
Definition index_map (l : list Z) : gmap Z Z :=
  foldl (λ m p, <[p.2 := p.1]> m) ∅ (enumerate l).

(** [m[k]] on a [dict] *)
Definition getitem (m : gmap Z Z) (k : Z) : result Z :=
  match m !! k with
  | Some v => Ok v
  | None => Err KeyError
  end.

Definition set_user (r : row) (u : Z) : row :=
  {| user_id := u; item_id := item_id r; timestamp := timestamp r |}.

Definition set_item (r : row) (i : Z) : row :=
  {| user_id := user_id r; item_id := i; timestamp := timestamp r |}.

(** [df[col] = df[col].apply(f)] *)
Fixpoint apply_column (get : row → Z) (set : row → Z → row)
    (f : Z → result Z) (df : DataFrame) : result DataFrame :=
  match df with
  | [] => Ok []
  | r :: df' =>
      v ← f (get r);
      df'' ← apply_column get set f df';
      Ok (set r v :: df'')
  end.

(** [Series.max()]: no value ([NaN]) on an empty column. *)
Definition series_max (l : list Z) : option Z :=
  foldr (λ x acc, Some (from_option (Z.max x) x acc)) None l.

Definition assert (b : bool) : result unit :=
  if b then Ok tt else Err AssertionError.

Record remapped : Set := Remapped {
  original_users : list Z;
  original_items : list Z;
  remapped_df : DataFrame
}.

Definition remap_ids (df : DataFrame) : result remapped :=
  let original_users := unique (user_id <$> df) in
  let original_items := unique (item_id <$> df) in
  let user_map := index_map original_users in
  let item_map := index_map original_items in
  df1 ← apply_column user_id set_user (getitem user_map) df;
  df2 ← apply_column item_id set_item (getitem item_map) df1;
  _ ← assert (bool_decide
         (series_max (user_id <$> df2) = Some (len original_users - 1)));
  _ ← assert (bool_decide
         (series_max (item_id <$> df2) = Some (len original_items - 1)));
  Ok (Remapped original_users original_items df2).

(** ** Leave-one-out splitter and negative sampler *)

Definition pair_of (r : row) : Z * Z := (user_id r, item_id r).

(** [set(zip(df[USER_COLUMN], df[ITEM_COLUMN]))] *)
Definition ratings_set (df : DataFrame) : gset (Z * Z) :=
  list_to_set (pair_of <$> df).

(** [d[k]] on a [defaultdict(list)]: the empty list for a missing key. *)
Definition items_of (d : gmap Z (list Z)) (k : Z) : list Z :=
  default [] (d !! k).

(** [user_to_items[row.user_id].append(row.item_id)] *)
Definition append_row (d : gmap Z (list Z)) (r : row) : gmap Z (list Z) :=
  <[user_id r := items_of d (user_id r) ++ [item_id r]]> d.

Definition item_lists (df : DataFrame) : gmap Z (list Z) :=
  foldl append_row ∅ df.

(** [l.pop()] *)
Definition pop (l : list Z) : result (Z * list Z) :=
  match last l with
  | Some x => Ok (x, removelast l)
  | None => Err IndexError
  end.

(** [s.remove(p)] *)
Definition set_remove (s : gset (Z * Z)) (p : Z * Z) : result (gset (Z * Z)) :=
  if decide (p ∈ s) then Ok (s ∖ {[p]}) else Err KeyError.

(** [range(n)] *)
Definition range (n : Z) : list Z := seqZ 0 n.

(** [sorted(list(all_items - set(history)))] *)
Definition candidates (all_items : gset Z) (history : list Z) : list Z :=
  merge_sort Z.le (elements (all_items ∖ list_to_set history)).

(** [a[i]] on an array *)
Definition array_get (a : list Z) (i : Z) : result Z :=
  if decide (0 ≤ i) then
    match a !! Z.to_nat i with
    | Some x => Ok x
    | None => Err IndexError
    end
  else Err IndexError.

Fixpoint mapM_result {A B} (f : A → result B) (l : list A) : result (list B) :=
  match l with
  | [] => Ok []
  | x :: l' =>
      y ← f x;
      ys ← mapM_result f l';
      Ok (y :: ys)
  end.

Record split_state : Type := SplitState {
  user_to_items : gmap Z (list Z);
  all_ratings : gset (Z * Z);
  test_ratings : list (Z * Z);
  test_negs : list (list Z)
}.

(** The three data frames handed to [to_csv]. *)
Record outputs : Set := Outputs {
  df_train_ratings : list (list Z);
  df_test_ratings : list (list Z);
  df_test_negs : list (list Z)
}.

(** The contents of the three files. *)
Record files : Set := Files {
  train_ratings_file : string;
  test_ratings_file : string;
  test_negative_file : string
}.

Definition tab : string := String (Ascii.ascii_of_nat 9) EmptyString.
Definition newline : string := String (Ascii.ascii_of_nat 10) EmptyString.

(** One line of [to_csv(..., index=False, header=False, sep=tab)] *)
Definition csv_line (r : list Z) : string :=
  String.concat tab (pretty <$> r) +:+ newline.

Definition to_csv (df : list (list Z)) : string :=
  foldr (λ r s, csv_line r +:+ s) EmptyString df.

Section Pipeline.
Context `{Libraries}.

(** Computations of [main]: the generator state goes in and out, an
    exception ends the run. *)
Definition M (A : Type) : Type := RandomState → result (A * RandomState).

Definition ret {A} (a : A) : M A := λ g, Ok (a, g).

Definition bind {A B} (k : A → M B) (m : M A) : M B :=
  λ g, match m g with
       | Ok (a, g') => k a g'
       | Err e => Err e
       end.

#[global] Instance M_ret : MRet M := @ret.
#[global] Instance M_mbind : MBind M := @bind.

Definition lift {A} (r : result A) : M A :=
  λ g, match r with
       | Ok a => Ok (a, g)
       | Err e => Err e
       end.

(** [np.random.seed(s)]: a seed outside 0 .. 2**32 - 1 raises
    [ValueError]. *)
Definition np_random_seed (s : Z) : M unit :=
  λ _, if decide (0 ≤ s < 2 ^ 32) then Ok (tt, np_seed s) else Err ValueError.

(** [randint(0, n, size=k)]: [k] draws, first to last *)
Fixpoint np_random_randint (n : Z) (k : nat) (g : RandomState)
    : list Z * RandomState :=
  match k with
  | O => ([], g)
  | S k' =>
      let (i, g') := np_randint n g in
      let (idx, g'') := np_random_randint n k' g' in
      (i :: idx, g'')
  end.

(** [np.random.choice(a, size)], with replacement (the default): an
    empty [a] raises [ValueError] unless no sample is asked for, and a
    [size] that the library does not deliver raises what the library
    raises for it; otherwise [size] positions are drawn below the length
    of [a] and the entries of [a] at these positions are returned. *)
Definition np_random_choice (a : list Z) (size : Z) : M (list Z) :=
  λ g,
    if decide (len a = 0 ∧ size ≠ 0) then Err ValueError
    else
      match np_size_error size with
      | Some e => Err e
      | None =>
          let (idx, g') := np_random_randint (len a) (Z.to_nat size) g in
          match mapM_result (array_get a) idx with
          | Ok l => Ok (l, g')
          | Err e => Err e
          end
      end.

(** One turn of the loop over users (lines 103 to 110). *)
Definition sample_user (negatives : Z) (all_items : gset Z)
    (st : split_state) (user : Z) : M split_state :=
  '(test_item, history) ← lift (pop (items_of (user_to_items st) user));
  ratings ← lift (set_remove (all_ratings st) (user, test_item));
  let all_negs := candidates all_items history in
  negs ← np_random_choice all_negs negatives;
  ret {| user_to_items := <[user := history]> (user_to_items st);
         all_ratings := ratings;
         test_ratings := test_ratings st ++ [(user, test_item)];
         test_negs := test_negs st ++ [negs] |}.

Fixpoint for_users (negatives : Z) (all_items : gset Z)
    (users : list Z) (st : split_state) : M split_state :=
  match users with
  | [] => ret st
  | user :: users' =>
      st' ← sample_user negatives all_items st user;
      for_users negatives all_items users' st'
  end.

(** From the sort to the end of the loop (lines 79 to 110). *)
Definition split (negatives : Z) (rm : remapped) : M split_state :=
  let df := sort_values (remapped_df rm) in
  let st := {| user_to_items := item_lists df;
               all_ratings := ratings_set df;
               test_ratings := [];
               test_negs := [] |} in
  let all_items := list_to_set (range (len (original_items rm))) in
  for_users negatives all_items (range (len (original_users rm))) st.

(** The three data frames that are saved (lines 113 to 127). *)
Definition with_fake_rating (p : Z * Z) : list Z := [p.1; p.2; 1].

Definition save (st : split_state) : outputs :=
  {| df_train_ratings := with_fake_rating <$> set_iter (all_ratings st);
     df_test_ratings := with_fake_rating <$> test_ratings st;
     df_test_negs := test_negs st |}.

Definition write (out : outputs) : files :=
  {| train_ratings_file := to_csv (df_train_ratings out);
     test_ratings_file := to_csv (df_test_ratings out);
     test_negative_file := to_csv (df_test_negs out) |}.

(** [main] up to the end of the loop: the arguments are [args.seed],
    [args.negatives] and the table that [implicit_load] returned; the
    computation starts in whatever state the global generator is in. *)
Definition pipeline (seed negatives : Z) (ratings : DataFrame)
    : M (remapped * split_state) :=
  _ ← np_random_seed seed;
  rm ← lift (remap_ids (filter_min_ratings ratings));
  st ← split negatives rm;
  ret (rm, st).

Definition main (seed negatives : Z) (ratings : DataFrame) : M files :=
  '(_, st) ← pipeline seed negatives ratings;
  ret (write (save st)).

End Pipeline.

(** * The reader of [eval_ncf.py]

    The parsing loop of [get_movielens_iter] (lines 59 to 72): what the
    lists [user], [item] and [score] and the counter [num_samples] hold
    when the file is closed.  The conversion of the lists to arrays and
    the iterator built from them are the framework's.  A [str] is the
    sequence of its characters, taken below 256. *)

Module EvalNcf.

Definition TAB : Ascii.ascii := Ascii.ascii_of_nat 9.
Definition LF : Ascii.ascii := Ascii.ascii_of_nat 10.
Definition CR : Ascii.ascii := Ascii.ascii_of_nat 13.

(** [c.isspace()] for a character below 256: the codes 9 to 13, 28 to
    32, 133 and 160. *)
Definition isspace (c : Ascii.ascii) : bool :=
  let n := Ascii.N_of_ascii c in
  ((9 <=? n) && (n <=? 13) || (28 <=? n) && (n <=? 32)
   || (n =? 133) || (n =? 160))%N.

Fixpoint lstrip (s : string) : string :=
  match s with
  | EmptyString => EmptyString
  | String c s' => if isspace c then lstrip s' else s
  end.

Fixpoint rstrip (s : string) : string :=
  match s with
  | EmptyString => EmptyString
  | String c s' =>
      match rstrip s' with
      | EmptyString => if isspace c then EmptyString else String c EmptyString
      | r => String c r
      end
  end.

(** [s.strip()] *)
Definition strip (s : string) : string := rstrip (lstrip s).

(** [s.split(sep)] for a separator of one character *)
Fixpoint split (sep : Ascii.ascii) (s : string) : list string :=
  match s with
  | EmptyString => [EmptyString]
  | String c s' =>
      if Ascii.eqb c sep then EmptyString :: split sep s'
      else match split sep s' with
           | t :: ts => String c t :: ts
           | [] => [String c EmptyString]
           end
  end.

(** Reading in text mode turns the line ends [CR LF] and [CR] into [LF]. *)
Fixpoint universal_newlines (s : string) : string :=
  match s with
  | EmptyString => EmptyString
  | String c s' =>
      if Ascii.eqb c CR then
        String LF
          match s' with
          | String c' s'' =>
              if Ascii.eqb c' LF then universal_newlines s''
              else universal_newlines s'
          | EmptyString => EmptyString
          end
      else String c (universal_newlines s')
  end.

(** [for line in f]: the lines of the text, each with its line end. *)
Fixpoint file_lines (s : string) : list string :=
  match s with
  | EmptyString => []
  | String c s' =>
      if Ascii.eqb c LF then String c EmptyString :: file_lines s'
      else match file_lines s' with
           | l :: ls => String c l :: ls
           | [] => [String c EmptyString]
           end
  end.

Record parsed : Set := Parsed {
  user : list string;
  item : list string;
  score : list string;
  num_samples : Z
}.

(** One turn of the loop over the lines (lines 65 to 71). *)
Definition read_line (st : parsed) (line : string) : parsed :=
  let tks := split TAB (strip line) in
  if decide (length tks ≠ 3%nat) then st
  else {| user := user st ++ [default EmptyString (tks !! 0%nat)];
          item := item st ++ [default EmptyString (tks !! 1%nat)];
          score := score st ++ [default EmptyString (tks !! 2%nat)];
          num_samples := num_samples st + 1 |}.

Definition read_lines (lines : list string) : parsed :=
  foldl read_line (Parsed [] [] [] 0) lines.

(** The loop on a file with the contents [text]. *)
Definition get_movielens_iter (text : string) : parsed :=
  read_lines (file_lines (universal_newlines text)).

(** For the statements: the number of occurrences of a character, and
    strings of white space only. *)
Fixpoint count (c : Ascii.ascii) (s : string) : nat :=
  match s with
  | EmptyString => 0
  | String c' s' => (if Ascii.eqb c' c then 1 else 0) + count c s'
  end.

Fixpoint blank (s : string) : bool :=
  match s with
  | EmptyString => true
  | String c s' => isspace c && blank s'
  end.

(** The tokens of a line that [to_csv] writes: not empty, and without
    white space. *)
Fixpoint solid (s : string) : bool :=
  match s with
  | EmptyString => true
  | String c s' => negb (isspace c) && solid s'
  end.

Definition token (s : string) : Prop := s ≠ EmptyString ∧ solid s = true.

(** The lines that hold two tabs once they are stripped *)
Definition kept_lines (lines : list string) : list string :=
  filter (λ l, count TAB (strip l) = 2%nat) lines.

(** The rows of three values of a table *)
Definition rows_of_three (df : list (list Z)) : list (Z * Z * Z) :=
  omap (λ r, match r with [a; b; c] => Some (a, b, c) | _ => None end) df.

End EvalNcf.

(** * Definitions for the statements *)

(** ** The remapping as a relation *)

(** [r'] is row [r] with its raw identifiers replaced by their positions
    in [users] and [items]. *)
Definition remap_row (users items : list Z) (r r' : row) : Prop :=
  (0 ≤ user_id r' ∧ users !! Z.to_nat (user_id r') = Some (user_id r)) ∧
  (0 ≤ item_id r' ∧ items !! Z.to_nat (item_id r') = Some (item_id r)) ∧
  timestamp r' = timestamp r.

(** [rm] is the remapping of the table [df]. *)
Definition remap_of (df : DataFrame) (rm : remapped) : Prop :=
  original_users rm = unique (user_id <$> df) ∧
  original_items rm = unique (item_id <$> df) ∧
  Forall2 (remap_row (original_users rm) (original_items rm))
    df (remapped_df rm).

(** ** The loop over users, read off the lists before the loop

    What the loop does to user [u] is fixed by the lists [d0] of items
    per user as they stand when the loop begins. *)

Definition held_out (d0 : gmap Z (list Z)) (u : Z) : Z :=
  default 0 (last (items_of d0 u)).

Definition history (d0 : gmap Z (list Z)) (u : Z) : list Z :=
  removelast (items_of d0 u).

Definition test_pair (d0 : gmap Z (list Z)) (u : Z) : Z * Z :=
  (u, held_out d0 u).

Definition pool (all_items : gset Z) (d0 : gmap Z (list Z)) (u : Z) : list Z :=
  candidates all_items (history d0 u).

(** The loop can be entered at [users]: every user still has the list it
    had before the loop, the list is not empty and its last item is
    still paired with the user in the set. *)
Definition loop_ready (d0 : gmap Z (list Z)) (users : list Z)
    (st : split_state) : Prop :=
  NoDup users ∧
  ∀ u, u ∈ users →
    items_of (user_to_items st) u = items_of d0 u ∧
    items_of d0 u ≠ [] ∧
    test_pair d0 u ∈ all_ratings st.

(** ** The sampler, as the specification words it

    [draws pool n g] takes [n] items from [pool], one after the other and
    each from the whole pool (with replacement), at the position the
    generator gives below the length of the pool; [sample_users] does so
    for the pools of the users in the order of the list, handing the
    generator from one user to the next. *)

Section Statements.
Context `{Libraries}.

Fixpoint draws (pool : list Z) (n : nat) (g : RandomState)
    : list Z * RandomState :=
  match n with
  | O => ([], g)
  | S n' =>
      let (i, g1) := np_randint (len pool) g in
      let (rest, g2) := draws pool n' g1 in
      (default 0 (pool !! Z.to_nat i) :: rest, g2)
  end.

Fixpoint sample_users (n : nat) (pools : list (list Z)) (g : RandomState)
    : list (list Z) * RandomState :=
  match pools with
  | [] => ([], g)
  | pool :: pools' =>
      let (negs, g1) := draws pool n g in
      let (rest, g2) := sample_users n pools' g1 in
      (negs :: rest, g2)
  end.

(** The exception, if any, of [np.random.choice(a, size)], and the first
    one that the calls for a list of pools raise. *)
Definition choice_error (a : list Z) (size : Z) : option exn :=
  if decide (a = [] ∧ size ≠ 0) then Some ValueError else np_size_error size.

Fixpoint loop_error (size : Z) (pools : list (list Z)) : option exn :=
  match pools with
  | [] => None
  | a :: pools' =>
      match choice_error a size with
      | Some e => Some e
      | None => loop_error size pools'
      end
  end.

Definition loop_result (n : nat) (all_items : gset Z) (d0 : gmap Z (list Z))
    (users : list Z) (st : split_state) (g : RandomState)
    : split_state * RandomState :=
  let (negs, g') := sample_users n (pool all_items d0 <$> users) g in
  ({| user_to_items :=
        foldl (λ d u, <[u := history d0 u]> d) (user_to_items st) users;
      all_ratings := all_ratings st ∖ list_to_set (test_pair d0 <$> users);
      test_ratings := test_ratings st ++ (test_pair d0 <$> users);
      test_negs := test_negs st ++ negs |}, g').

Definition sorted_df (rm : remapped) : DataFrame :=
  sort_values (remapped_df rm).

Definition lists_before (rm : remapped) : gmap Z (list Z) :=
  item_lists (sorted_df rm).

Definition state_before (rm : remapped) : split_state :=
  {| user_to_items := lists_before rm;
     all_ratings := ratings_set (sorted_df rm);
     test_ratings := [];
     test_negs := [] |}.

Definition catalogue (rm : remapped) : gset Z :=
  list_to_set (range (len (original_items rm))).

Definition user_indices (rm : remapped) : list Z :=
  range (len (original_users rm)).

(** The facts about a run of [pipeline] that ends well. *)
Record run_ok (seed negatives : Z) (ratings : DataFrame)
    (rm : remapped) (st : split_state) (g : RandomState) : Prop := RunOk {
  run_filtered : filter_min_ratings ratings ≠ [];
  run_remap : remap_of (filter_min_ratings ratings) rm;
  run_negatives : 0 ≤ negatives;
  run_pools :
    negatives = 0 ∨
    Forall (λ u, pool (catalogue rm) (lists_before rm) u ≠ []) (user_indices rm);
  run_lists :
    ∀ u, items_of (user_to_items st) u =
         if decide (u ∈ user_indices rm) then history (lists_before rm) u
         else items_of (lists_before rm) u;
  run_ratings :
    all_ratings st = ratings_set (remapped_df rm) ∖ list_to_set (test_ratings st);
  run_tests :
    test_ratings st = test_pair (lists_before rm) <$> user_indices rm;
  run_negs :
    (test_negs st, g) =
      sample_users (Z.to_nat negatives)
        (pool (catalogue rm) (lists_before rm) <$> user_indices rm)
        (np_seed seed)
}.

End Statements.

(** ** Two instances of the libraries

    Both draw with a linear congruential generator, deliver every number
    of draws from 0 up to the greatest C long, and iterate a set in the
    order of [elements].  The first sorts with a stable merge sort;
    the second sorts the reversed table with it, so that rows with the
    same timestamp come out in the reverse of their row order.  Both
    return the rows in ascending timestamp order. *)

#[global] Instance by_timestamp_trans : Transitive by_timestamp.
Proof. unfold by_timestamp. intros a b c. lia. Qed.

#[global] Instance by_timestamp_dec : RelDecision by_timestamp.
Proof. intros a b. unfold by_timestamp. apply _. Defined.

#[global] Instance by_timestamp_total : Total by_timestamp.
Proof. intros a b. unfold by_timestamp. lia. Qed.

Definition lcg_next (g : Z) : Z := (1103515245 * g + 12345) `mod` 2147483648.

Definition lcg_randint (n g : Z) : Z * Z := (lcg_next g `mod` n, lcg_next g).

Lemma lcg_randint_range n g : 0 < n → 0 ≤ (lcg_randint n g).1 < n.
Proof. intros Hn. simpl. apply Z.mod_pos_bound. lia. Qed.

Definition lib_size_error (n : Z) : option exn :=
  if decide (n < 0) then Some ValueError
  else if decide (2 ^ 63 ≤ n) then Some OverflowError
  else None.

Lemma lib_size_error_range n : lib_size_error n = None → 0 ≤ n < 2 ^ 63.
Proof. unfold lib_size_error. repeat case_decide; (done || lia). Qed.

Lemma lib_size_error_kind n e : lib_size_error n = Some e → library_error e.
Proof.
  unfold lib_size_error, library_error.
  repeat case_decide; intros [= <-]; tauto.
Qed.

Definition sort_reversed (df : DataFrame) : DataFrame :=
  merge_sort by_timestamp (reverse df).

Lemma sort_reversed_perm df : sort_reversed df ≡ₚ df.
Proof.
  unfold sort_reversed. by rewrite merge_sort_Permutation, reverse_Permutation.
Qed.

Lemma sort_reversed_sorted df : Sorted by_timestamp (sort_reversed df).
Proof. apply (Sorted_merge_sort by_timestamp). Qed.

Definition stable_libraries : Libraries :=
  {| RandomState := Z;
     np_seed := λ s, s;
     np_randint := lcg_randint;
     np_randint_range := lcg_randint_range;
     np_size_error := lib_size_error;
     np_size_error_range := lib_size_error_range;
     np_size_error_kind := lib_size_error_kind;
     sort_values := merge_sort by_timestamp;
     sort_values_perm := merge_sort_Permutation by_timestamp;
     sort_values_sorted := Sorted_merge_sort by_timestamp;
     set_iter := elements;
     set_iter_perm := λ s, reflexivity (elements s) |}.

Definition reversing_libraries : Libraries :=
  {| RandomState := Z;
     np_seed := λ s, s;
     np_randint := lcg_randint;
     np_randint_range := lcg_randint_range;
     np_size_error := lib_size_error;
     np_size_error_range := lib_size_error_range;
     np_size_error_kind := lib_size_error_kind;
     sort_values := sort_reversed;
     sort_values_perm := sort_reversed_perm;
     sort_values_sorted := sort_reversed_sorted;
     set_iter := elements;
     set_iter_perm := λ s, reflexivity (elements s) |}.

(** ** Example tables *)

(** Raw user 7 rates items 100 to 119 at times 50 down to 31, raw user 3
    rates items 105 to 125 at times 0 to 20, raw user 9 rates once. *)
Definition example_ratings : DataFrame :=
  ((λ i, Row 7 (100 + i) (50 - i)) <$> seqZ 0 20) ++
  ((λ i, Row 3 (105 + i) i) <$> seqZ 0 21) ++
  [Row 9 1 1].

(** One user with nineteen ratings. *)
Definition sparse_ratings : DataFrame :=
  (λ i, Row 7 (100 + i) i) <$> seqZ 0 19.

(** One user, twenty ratings; the first two rows carry the same
    timestamp, the greatest of the table. *)
Definition tied_ratings : DataFrame :=
  [Row 7 100 100; Row 7 101 100] ++ ((λ i, Row 7 (102 + i) i) <$> seqZ 0 18).

(** One user who rates the same item twenty times. *)
Definition repeated_ratings : DataFrame :=
  (λ i, Row 7 100 i) <$> seqZ 0 20.

(** Two users with twenty ratings each; the first rates item 100 twice,
    at the start and, as its last rating, at the end. *)
Definition rated_twice_ratings : DataFrame :=
  ((λ i, Row 7 (100 + i) i) <$> seqZ 0 19) ++ [Row 7 100 19] ++
  ((λ i, Row 3 (200 + i) i) <$> seqZ 0 20).

(** ** Tab-separated text

    A text without a header line and without an index column, as the
    specification describes the three files: its lines are the pieces
    that a line feed ends, the fields of a line are the pieces between
    its tabs. *)
Definition text_lines (s : string) : list string :=
  removelast (EvalNcf.split EvalNcf.LF s).

Definition tsv_rows (s : string) : list (list string) :=
  EvalNcf.split EvalNcf.TAB <$> text_lines s.

(** ** Reading the remapped table back *)

(** [original_users[user_id]] and [original_items[item_id]] for a row of
    the remapped table. *)
Definition original_row (rm : remapped) (r' : row) : option row :=
  if decide (0 ≤ user_id r' ∧ 0 ≤ item_id r') then
    u ← original_users rm !! Z.to_nat (user_id r');
    i ← original_items rm !! Z.to_nat (item_id r');
    Some {| user_id := u; item_id := i; timestamp := timestamp r' |}
  else None.

(** * Properties *)

(** ** The filter *)

Lemma filter_none {A} (P : A → Prop) `{!∀ x, Decision (P x)} (l : list A) :
  (∀ x, x ∈ l → ¬ P x) → filter P l = [].
Proof.
  induction l as [|x l IH]; intros Hl; [done|].
  rewrite filter_cons_False by (apply Hl; left).
  apply IH. intros y Hy. apply Hl. by right.
Qed.

Lemma group_filter_min_ratings df u :
  group (filter_min_ratings df) u =
    if decide (MIN_RATINGS ≤ len (group df u)) then group df u else [].
Proof.
  unfold group at 1, filter_min_ratings.
  rewrite list_filter_filter.
  case_decide as Hu.
  - apply list_filter_iff. intros r. split; [by intros [??]|]. intros Hr. split; [done|]. by rewrite Hr.
  - apply filter_none. by intros r _ [-> Hr].
Qed.

Lemma elem_of_filter_min_ratings df r :
  r ∈ filter_min_ratings df ↔ r ∈ df ∧ MIN_RATINGS ≤ len (group df (user_id r)).
Proof. unfold filter_min_ratings. rewrite list_elem_of_filter. naive_solver. Qed.

Lemma elem_of_group df u r : r ∈ group df u ↔ r ∈ df ∧ user_id r = u.
Proof. unfold group. rewrite list_elem_of_filter. naive_solver. Qed.

Lemma group_Permutation df df' u : df ≡ₚ df' → group df u ≡ₚ group df' u.
Proof. intros Hp. unfold group. by rewrite Hp. Qed.

(** ** [unique] and the index maps *)

Lemma elem_of_unique l x : x ∈ unique l ↔ x ∈ l.
Proof.
  induction l as [|y l IH]; simpl; [done|].
  rewrite !elem_of_cons, list_elem_of_filter, IH.
  destruct (decide (x = y)); naive_solver.
Qed.

Lemma NoDup_unique l : NoDup (unique l).
Proof.
  induction l as [|y l IH]; simpl; [constructor|].
  constructor.
  - rewrite list_elem_of_filter. naive_solver.
  - by apply NoDup_filter.
Qed.

Lemma unique_nil_inv l : unique l = [] → l = [].
Proof. by destruct l. Qed.

Lemma enumerate_snoc {A} (l : list A) x :
  enumerate (l ++ [x]) = enumerate l ++ [(len l, x)].
Proof.
  unfold enumerate, len. rewrite imap_app. simpl.
  by rewrite Nat.add_0_r.
Qed.

Lemma index_map_snoc l x :
  index_map (l ++ [x]) = <[x := len l]> (index_map l).
Proof. unfold index_map. by rewrite enumerate_snoc, foldl_snoc. Qed.

Lemma index_map_lookup l x i :
  NoDup l →
  index_map l !! x = Some i ↔ 0 ≤ i ∧ l !! Z.to_nat i = Some x.
Proof.
  induction l as [|y l IH] using rev_ind; intros Hnd.
  { unfold index_map. simpl. rewrite lookup_empty. naive_solver. }
  apply NoDup_app in Hnd as (Hnd & Hy & _).
  rewrite index_map_snoc. unfold len.
  destruct (decide (y = x)) as [->|Hne].
  - rewrite lookup_insert_eq. split.
    + intros [= <-]. split; [lia|].
      rewrite Nat2Z.id. by rewrite lookup_app_r, Nat.sub_diag.
    + intros [Hi Hl]. f_equal.
      destruct (decide (Z.to_nat i < length l)%nat) as [Hlt|Hge].
      * rewrite lookup_app_l in Hl by done.
        exfalso. apply (Hy x); [|left]. by eapply list_elem_of_lookup_2.
      * apply lookup_lt_Some in Hl. rewrite length_app in Hl. simpl in Hl. lia.
  - rewrite lookup_insert_ne by done. rewrite IH by done.
    split; intros [Hi Hl]; split; try done.
    + rewrite lookup_app_l; [done|]. by eapply lookup_lt_Some.
    + destruct (decide (Z.to_nat i < length l)%nat) as [Hlt|Hge].
      * by rewrite lookup_app_l in Hl.
      * rewrite lookup_app_r in Hl by lia.
        destruct (Z.to_nat i - length l)%nat; simplify_eq/=.
Qed.

Lemma index_map_is_Some l x : x ∈ l → is_Some (index_map l !! x).
Proof.
  induction l as [|y l IH] using rev_ind; [by intros ?%elem_of_nil|].
  rewrite index_map_snoc, elem_of_app, list_elem_of_singleton.
  intros Hx. destruct (decide (y = x)) as [->|Hne].
  - rewrite lookup_insert_eq. eauto.
  - rewrite lookup_insert_ne by done. naive_solver.
Qed.

Lemma getitem_index_map l x :
  x ∈ l → ∃ v, getitem (index_map l) x = Ok v.
Proof.
  intros [v Hv]%index_map_is_Some. exists v. unfold getitem. by rewrite Hv.
Qed.

Lemma getitem_index_map_inv l x v :
  NoDup l → getitem (index_map l) x = Ok v →
  0 ≤ v ∧ l !! Z.to_nat v = Some x.
Proof.
  intros Hnd. unfold getitem.
  destruct (index_map l !! x) as [i|] eqn:Hi; [|done].
  intros [= ->]. by apply index_map_lookup.
Qed.

(** ** The remapper *)

Lemma apply_column_Ok get set f df df' :
  apply_column get set f df = Ok df' ↔
  Forall2 (λ r r', ∃ v, f (get r) = Ok v ∧ r' = set r v) df df'.
Proof.
  revert df'. induction df as [|r df IH]; intros df'; simpl.
  - split; [intros [= <-]; constructor|by inversion 1].
  - split.
    + destruct (f (get r)) as [v|] eqn:Hf; simpl; [|done].
      destruct (apply_column get set f df) as [df''|] eqn:Hdf; simpl; [|done].
      intros [= <-]. constructor; [eauto|]. by apply IH.
    + inversion 1 as [|? r' ? df'' (v & Hv & ->) Hdf]; subst.
      apply IH in Hdf. by rewrite Hv, Hdf.
Qed.

Lemma apply_column_total get set f df :
  (∀ r, r ∈ df → ∃ v, f (get r) = Ok v) →
  ∃ df', apply_column get set f df = Ok df'.
Proof.
  induction df as [|r df IH]; intros Hf; simpl; [eauto|].
  destruct (Hf r) as [v ->]; [left|]. simpl.
  destruct IH as [df' ->]; [|simpl; eauto].
  intros r' Hr'. apply Hf. by right.
Qed.

Lemma series_max_nil : series_max [] = None.
Proof. done. Qed.

Lemma series_max_inv l m :
  series_max l = Some m → m ∈ l ∧ ∀ x, x ∈ l → x ≤ m.
Proof.
  revert m. induction l as [|y l IH]; intros m; [done|].
  simpl. fold (series_max l). intros [= <-].
  destruct (series_max l) as [m'|] eqn:Hl; simpl.
  - destruct (IH m' eq_refl) as [Hin Hle]. split.
    + destruct (Z.max_spec y m') as [[_ ->]|[_ ->]]; [by right|left].
    + intros x [->|Hx]%elem_of_cons; [lia|]. specialize (Hle x Hx). lia.
  - destruct l; [|done]. split; [left|].
    by intros x ->%list_elem_of_singleton.
Qed.

Lemma series_max_Some l m :
  m ∈ l → (∀ x, x ∈ l → x ≤ m) → series_max l = Some m.
Proof.
  intros Hm Hle.
  destruct (series_max l) as [m'|] eqn:Hl.
  - apply series_max_inv in Hl as [Hm' Hle'].
    f_equal. specialize (Hle m' Hm'). specialize (Hle' m Hm). lia.
  - destruct l; [by apply elem_of_nil in Hm|done].
Qed.

(** The greatest index of a remapped column is the last position of the
    list of distinct raw values. *)
Lemma series_max_dense {A B} (f : B → Z) (g : A → Z) (df : list A) (df' : list B) :
  df ≠ [] →
  Forall2 (λ r r', 0 ≤ f r' ∧ unique (g <$> df) !! Z.to_nat (f r') = Some (g r))
    df df' →
  series_max (f <$> df') = Some (len (unique (g <$> df)) - 1).
Proof.
  intros Hne HF. set (l := unique (g <$> df)) in *.
  assert (l ≠ []) as Hl.
  { intros ?%unique_nil_inv%fmap_nil_inv. done. }
  assert (0 < len l) as Hlen.
  { unfold len. destruct l; [done|]. simpl. lia. }
  apply series_max_Some.
  - destruct (last l) as [x|] eqn:Hx; [|by apply last_None in Hx].
    assert (x ∈ g <$> df) as (r & -> & Hr)%list_elem_of_fmap.
    { apply elem_of_unique. by eapply last_Some_elem_of. }
    apply list_elem_of_lookup in Hr as [i Hi].
    destruct (Forall2_lookup_l _ _ _ _ _ HF Hi) as (r' & Hi' & Hpos & Hr').
    apply list_elem_of_fmap. exists r'. split; [|by eapply list_elem_of_lookup_2].
    rewrite last_lookup in Hx.
    pose proof (NoDup_lookup _ _ _ _ (NoDup_unique _) Hr' Hx) as Heq.
    unfold len in *. subst l. lia.
  - intros v (r' & -> & Hr')%list_elem_of_fmap.
    apply list_elem_of_lookup in Hr' as [i Hi'].
    destruct (Forall2_lookup_r _ _ _ _ _ HF Hi') as (r & Hi & Hpos & Hr).
    apply lookup_lt_Some in Hr. unfold len in *. subst l. lia.
Qed.

Lemma dense_column {A B} (f : B → Z) (g : A → Z) (df : list A) (df' : list B) v :
  Forall2 (λ r r', 0 ≤ f r' ∧ unique (g <$> df) !! Z.to_nat (f r') = Some (g r))
    df df' →
  v ∈ f <$> df' ↔ 0 ≤ v < len (unique (g <$> df)).
Proof.
  intros HF. split.
  - intros (r' & -> & Hr')%list_elem_of_fmap.
    apply list_elem_of_lookup in Hr' as [i Hi'].
    destruct (Forall2_lookup_r _ _ _ _ _ HF Hi') as (r & Hi & Hpos & Hr).
    apply lookup_lt_Some in Hr. unfold len. lia.
  - intros Hv.
    destruct (lookup_lt_is_Some_2 (unique (g <$> df)) (Z.to_nat v)) as [x Hx].
    { unfold len in Hv. lia. }
    assert (x ∈ g <$> df) as (r & -> & Hr)%list_elem_of_fmap.
    { apply elem_of_unique. by eapply list_elem_of_lookup_2. }
    apply list_elem_of_lookup in Hr as [i Hi].
    destruct (Forall2_lookup_l _ _ _ _ _ HF Hi) as (r' & Hi' & Hpos & Hr').
    apply list_elem_of_fmap. exists r'. split; [|by eapply list_elem_of_lookup_2].
    pose proof (NoDup_lookup _ _ _ _ (NoDup_unique _) Hr' Hx). lia.
Qed.

Lemma remap_ids_nil : remap_ids [] = Err AssertionError.
Proof. reflexivity. Qed.

Lemma remap_ids_Ok df :
  df ≠ [] →
  ∃ df', remap_ids df
           = Ok (Remapped (unique (user_id <$> df)) (unique (item_id <$> df)) df')
         ∧ Forall2 (remap_row (unique (user_id <$> df)) (unique (item_id <$> df)))
             df df'.
Proof.
  intros Hne. unfold remap_ids.
  set (users := unique (user_id <$> df)).
  set (items := unique (item_id <$> df)).
  destruct (apply_column_total user_id set_user (getitem (index_map users)) df)
    as [df1 H1].
  { intros r Hr. apply getitem_index_map, elem_of_unique, list_elem_of_fmap. eauto. }
  rewrite H1. simpl. apply apply_column_Ok in H1.
  destruct (apply_column_total item_id set_item (getitem (index_map items)) df1)
    as [df2 H2].
  { intros r1 Hr1. apply list_elem_of_lookup in Hr1 as [i Hi].
    destruct (Forall2_lookup_r _ _ _ _ _ H1 Hi) as (r & Hr & v & _ & ->).
    simpl. apply getitem_index_map, elem_of_unique, list_elem_of_fmap.
    exists r. split; [done|]. by eapply list_elem_of_lookup_2. }
  rewrite H2. simpl. apply apply_column_Ok in H2.
  assert (Forall2 (remap_row users items) df df2) as HF.
  { apply Forall2_same_length_lookup. split.
    - apply Forall2_length in H1, H2. congruence.
    - intros i r r2 Hr Hr2.
      destruct (Forall2_lookup_l _ _ _ _ _ H1 Hr) as (r1 & Hr1 & u & Hu & ->).
      destruct (Forall2_lookup_l _ _ _ _ _ H2 Hr1) as (r2' & Hr2' & v & Hv & ->).
      simplify_eq/=.
      apply getitem_index_map_inv in Hu; [|apply NoDup_unique].
      apply getitem_index_map_inv in Hv; [|apply NoDup_unique].
      unfold remap_row. simpl. tauto. }
  subst users items.
  rewrite (series_max_dense user_id user_id df df2 Hne).
  2:{ eapply Forall2_impl; [exact HF|]. by intros r r' [? _]. }
  rewrite (series_max_dense item_id item_id df df2 Hne).
  2:{ eapply Forall2_impl; [exact HF|]. by intros r r' (_ & ? & _). }
  rewrite !bool_decide_eq_true_2 by done. simpl.
  eauto.
Qed.

Lemma remap_ids_inv df rm :
  remap_ids df = Ok rm → df ≠ [] ∧ remap_of df rm.
Proof.
  intros Hrm. destruct df as [|r df]; [by rewrite remap_ids_nil in Hrm|].
  split; [done|].
  destruct (remap_ids_Ok (r :: df)) as (df' & Hdf' & HF); [done|].
  rewrite Hdf' in Hrm. injection Hrm as <-. by split_and!.
Qed.

Lemma Forall2_filter_length {A B} (R : A → B → Prop) (P : A → Prop) (Q : B → Prop)
    `{!∀ x, Decision (P x), !∀ y, Decision (Q y)} l k :
  Forall2 R l k → (∀ x y, R x y → P x ↔ Q y) →
  length (filter P l) = length (filter Q k).
Proof.
  intros HF HPQ. induction HF as [|x y l k Hxy HF IH]; [done|].
  rewrite !filter_cons. specialize (HPQ x y Hxy).
  destruct (decide (P x)), (decide (Q y)); simpl; try tauto; by rewrite IH.
Qed.

Lemma remap_of_users df rm u :
  remap_of df rm →
  0 ≤ u < len (original_users rm) →
  ∃ uid, original_users rm !! Z.to_nat u = Some uid ∧
         len (group (remapped_df rm) u) = len (group df uid) ∧
         0 < len (group df uid).
Proof.
  intros (Hu & Hi & HF) Hlt.
  destruct (lookup_lt_is_Some_2 (original_users rm) (Z.to_nat u)) as [uid Huid].
  { unfold len in Hlt. lia. }
  assert (NoDup (original_users rm)) as Hnd.
  { rewrite Hu. apply NoDup_unique. }
  exists uid. split_and!; [done| |].
  - unfold len, group. f_equal. symmetry.
    apply (Forall2_filter_length (remap_row (original_users rm) (original_items rm)));
      [done|].
    intros r r' ((Hpos & Hr') & _). split.
    + intros Heq. rewrite Heq in Hr'.
      pose proof (NoDup_lookup _ _ _ _ Hnd Hr' Huid). lia.
    + intros Heq. rewrite Heq in Hr'. congruence.
  - assert (uid ∈ user_id <$> df) as (r & -> & Hr)%list_elem_of_fmap.
    { apply elem_of_unique. rewrite <-Hu. by eapply list_elem_of_lookup_2. }
    assert (r ∈ group df (user_id r)) as Hg by by apply elem_of_group.
    unfold len. destruct (group df (user_id r)); [by apply elem_of_nil in Hg|].
    simpl. lia.
Qed.

Lemma remapped_user_range df rm r :
  remap_of df rm → r ∈ remapped_df rm →
  (0 ≤ user_id r < len (original_users rm)) ∧
  (0 ≤ item_id r < len (original_items rm)).
Proof.
  intros (_ & _ & HF) [k Hk]%list_elem_of_lookup.
  destruct (Forall2_lookup_r _ _ _ _ _ HF Hk)
    as (r0 & _ & [Hu Hlu] & [Hi Hli] & _).
  apply lookup_lt_Some in Hlu, Hli. unfold len. lia.
Qed.

Lemma retained_user_count df rm u uid :
  remap_of (filter_min_ratings df) rm →
  original_users rm !! Z.to_nat u = Some uid →
  MIN_RATINGS ≤ len (group df uid) ∧
  group (filter_min_ratings df) uid = group df uid.
Proof.
  intros (Hu & _) Huid.
  assert (uid ∈ user_id <$> filter_min_ratings df)
    as (r & -> & Hr)%list_elem_of_fmap.
  { apply elem_of_unique. rewrite <-Hu. by eapply list_elem_of_lookup_2. }
  apply elem_of_filter_min_ratings in Hr as [_ Hr].
  split; [done|]. rewrite group_filter_min_ratings. by rewrite decide_True.
Qed.

Lemma retained_user_index df rm uid :
  remap_of (filter_min_ratings df) rm →
  MIN_RATINGS ≤ len (group df uid) →
  ∃ u, 0 ≤ u < len (original_users rm) ∧
       original_users rm !! Z.to_nat u = Some uid.
Proof.
  intros (Hu & _) Hmin.
  assert (uid ∈ original_users rm) as [i Hi]%list_elem_of_lookup.
  { rewrite Hu. apply elem_of_unique.
    destruct (group df uid) as [|r l] eqn:Hg.
    { unfold len, MIN_RATINGS in Hmin. simpl in Hmin. lia. }
    assert (r ∈ group df uid) as [Hr <-]%elem_of_group by (rewrite Hg; left).
    apply list_elem_of_fmap. exists r. split; [done|].
    apply elem_of_filter_min_ratings. split; [done|]. by rewrite Hg. }
  exists (Z.of_nat i). rewrite Nat2Z.id. split; [|done].
  apply lookup_lt_Some in Hi. unfold len. lia.
Qed.

Lemma retained_users df rm uid :
  remap_of (filter_min_ratings df) rm →
  uid ∈ original_users rm ↔ MIN_RATINGS ≤ len (group df uid).
Proof.
  intros Hof. split.
  - intros [k Hk]%list_elem_of_lookup.
    rewrite <-(Nat2Z.id k) in Hk.
    by destruct (retained_user_count _ _ _ _ Hof Hk).
  - intros Hmin. destruct (retained_user_index _ _ _ Hof Hmin) as (u & _ & Hu).
    by eapply list_elem_of_lookup_2.
Qed.

Lemma NoDup_fmap_filter {A B} (f : A → B) (P : A → Prop)
    `{!∀ x, Decision (P x)} (l : list A) :
  NoDup (f <$> l) → NoDup (f <$> filter P l).
Proof.
  induction l as [|x l IH]; [done|].
  rewrite fmap_cons, NoDup_cons. intros [Hx Hl].
  rewrite filter_cons. case_decide; [|auto].
  rewrite fmap_cons. constructor; [|auto].
  rewrite list_elem_of_fmap in *.
  intros (y & ? & [_ ?]%list_elem_of_filter). apply Hx. eauto.
Qed.

Lemma remap_of_NoDup df rm :
  remap_of df rm → NoDup (pair_of <$> df) →
  NoDup (pair_of <$> remapped_df rm).
Proof.
  intros (_ & _ & HF) Hnd. apply NoDup_alt. intros i j p Hi Hj.
  rewrite list_lookup_fmap in Hi, Hj.
  destruct (remapped_df rm !! i) as [ri'|] eqn:Hi'; [|done].
  destruct (remapped_df rm !! j) as [rj'|] eqn:Hj'; [|done].
  simpl in Hi, Hj.
  assert (pair_of rj' = pair_of ri') as Hp by congruence.
  assert (p = pair_of ri') as -> by congruence. clear Hi Hj.
  destruct (Forall2_lookup_r _ _ _ _ _ HF Hi')
    as (ri & Hri & [_ Hui] & [_ Hii] & _).
  destruct (Forall2_lookup_r _ _ _ _ _ HF Hj')
    as (rj & Hrj & [_ Huj] & [_ Hij] & _).
  unfold pair_of in Hp. injection Hp as Hu Hit.
  rewrite Hu in Huj. rewrite Hit in Hij.
  apply (NoDup_lookup (pair_of <$> df) i j (pair_of ri)); [done|..].
  - by rewrite list_lookup_fmap, Hri.
  - rewrite list_lookup_fmap, Hrj. simpl. unfold pair_of. congruence.
Qed.

(** ** Lists of items per user and sorted tables *)

Lemma item_lists_snoc df r :
  item_lists (df ++ [r]) = append_row (item_lists df) r.
Proof. unfold item_lists. by rewrite foldl_snoc. Qed.

Lemma items_of_item_lists df u :
  items_of (item_lists df) u = item_id <$> group df u.
Proof.
  induction df as [|r df IH] using rev_ind; [done|].
  rewrite item_lists_snoc. unfold group, append_row, items_of in *.
  rewrite filter_app, fmap_app, filter_cons, filter_nil.
  destruct (decide (user_id r = u)) as [->|Hne].
  - rewrite lookup_insert_eq. simpl. by rewrite IH.
  - rewrite lookup_insert_ne by done. by rewrite IH, app_nil_r.
Qed.

Lemma items_of_foldl_insert (h : Z → list Z) d users u :
  items_of (foldl (λ d u, <[u := h u]> d) d users) u
  = if decide (u ∈ users) then h u else items_of d u.
Proof.
  revert d. induction users as [|x users IH]; intros d; cbn [foldl].
  { case_decide as Hin; [by apply elem_of_nil in Hin|done]. }
  rewrite IH. destruct (decide (u ∈ users)) as [Hin|Hnin].
  - by rewrite decide_True by by right.
  - destruct (decide (u = x)) as [->|Hne].
    + rewrite decide_True by left. unfold items_of. by rewrite lookup_insert_eq.
    + rewrite decide_False by (rewrite elem_of_cons; tauto).
      unfold items_of. by rewrite lookup_insert_ne.
Qed.

Lemma elem_of_ratings_set df p :
  p ∈ ratings_set df ↔ ∃ r, r ∈ df ∧ pair_of r = p.
Proof.
  unfold ratings_set. rewrite elem_of_list_to_set, list_elem_of_fmap.
  naive_solver.
Qed.

Lemma ratings_set_Permutation df df' :
  df ≡ₚ df' → ratings_set df = ratings_set df'.
Proof.
  intros Hp. apply set_eq. intros p. rewrite !elem_of_ratings_set.
  by setoid_rewrite Hp.
Qed.

Lemma StronglySorted_filter {A} (R : relation A) (P : A → Prop)
    `{!∀ x, Decision (P x)} (l : list A) :
  StronglySorted R l → StronglySorted R (filter P l).
Proof.
  induction 1 as [|x l Hl IH Hx]; [constructor|].
  rewrite filter_cons. case_decide; [|done].
  constructor; [done|].
  rewrite Forall_forall in Hx |- *.
  intros y [_ Hy]%list_elem_of_filter. by apply Hx.
Qed.

Lemma StronglySorted_lookup {A} (R : relation A) (l : list A) i j a b :
  StronglySorted R l → (i < j)%nat →
  l !! i = Some a → l !! j = Some b → R a b.
Proof.
  intros Hs. revert i j.
  induction Hs as [|x l Hs IH Hx]; intros i j Hij Hi Hj; [done|].
  destruct i as [|i], j as [|j]; simplify_eq/=; try lia.
  - rewrite Forall_forall in Hx. apply Hx. by eapply list_elem_of_lookup_2.
  - eapply (IH i j); [lia|done..].
Qed.

Lemma StronglySorted_seqZ m n : StronglySorted Z.le (seqZ m n).
Proof.
  destruct (decide (0 ≤ n)) as [Hn|Hn].
  - rewrite <-(Z2Nat.id n) by done. clear Hn.
    induction (Z.to_nat n) as [|k IH]; [constructor|].
    rewrite seqZ_S. apply StronglySorted_app_2; [|done|repeat constructor].
    intros x y Hx ->%list_elem_of_singleton.
    apply elem_of_seqZ in Hx. lia.
  - unfold seqZ. replace (Z.to_nat n) with 0%nat by lia. constructor.
Qed.

(** The last row of a sorted group carries its greatest timestamp. *)
Lemma sorted_group_last df u r :
  Sorted by_timestamp df →
  last (group df u) = Some r →
  ∀ r', r' ∈ group df u → timestamp r' ≤ timestamp r.
Proof.
  intros Hs Hl r' Hr'.
  apply Sorted_StronglySorted in Hs; [|apply _].
  apply (StronglySorted_filter _ (λ r, user_id r = u)) in Hs.
  fold (group df u) in Hs.
  apply last_Some in Hl as [l Hl]. rewrite Hl in Hs, Hr'.
  apply elem_of_app in Hr' as [Hr'|Hr'].
  - eapply (StronglySorted_app_1_elem_of by_timestamp); [done..|left].
  - apply list_elem_of_singleton in Hr' as ->. done.
Qed.

(** ** [pop], the candidates and the history *)

Lemma pop_Ok l x h : pop l = Ok (x, h) ↔ l = h ++ [x].
Proof.
  unfold pop. split.
  - destruct (last l) as [y|] eqn:Hl; [|done].
    intros [= -> <-]. apply last_Some in Hl as [l' ->].
    by rewrite removelast_last.
  - intros ->. by rewrite last_snoc, removelast_last.
Qed.

Lemma pop_nil : pop [] = Err IndexError.
Proof. done. Qed.

Lemma pop_cons x l : ∃ y h, pop (x :: l) = Ok (y, h).
Proof.
  unfold pop. destruct (last (x :: l)) as [y|] eqn:Hl; [eauto|].
  by apply last_None in Hl.
Qed.


(** The candidates are the catalogue in ascending order, less the items
    of the history. *)
Lemma candidates_range n history :
  candidates (list_to_set (range n)) history
  = filter (λ i, i ∉ history) (range n).
Proof.
  unfold candidates, range.
  apply (Sorted_unique Z.le).
  - apply (Sorted_merge_sort Z.le).
  - apply StronglySorted_Sorted, StronglySorted_filter.
    apply StronglySorted_seqZ.
  - rewrite merge_sort_Permutation.
    apply NoDup_Permutation.
    + apply NoDup_elements.
    + apply NoDup_filter, NoDup_seqZ.
    + intros i. rewrite elem_of_elements, elem_of_difference,
        !elem_of_list_to_set, list_elem_of_filter. naive_solver.
Qed.


Lemma held_out_not_in_history d0 u :
  NoDup (items_of d0 u) → items_of d0 u ≠ [] →
  held_out d0 u ∉ history d0 u.
Proof.
  intros Hnd Hne. unfold held_out, history.
  destruct (last (items_of d0 u)) as [x|] eqn:Hl; [|by apply last_None in Hl].
  apply last_Some in Hl as [h Hl]. rewrite Hl in *.
  rewrite removelast_last. simpl.
  apply NoDup_app in Hnd as (_ & Hnd & _).
  intros Hx. apply (Hnd x Hx). left.
Qed.

Lemma test_pair_lookup d0 n u :
  0 ≤ u < n → (test_pair d0 <$> range n) !! Z.to_nat u = Some (test_pair d0 u).
Proof.
  intros Hu. rewrite list_lookup_fmap. unfold range.
  rewrite lookup_seqZ_lt by lia. simpl. do 2 f_equal. lia.
Qed.

(** ** The sampler *)

Section Sampler.
Context `{Libraries}.

Lemma length_draws pool n g : length (draws pool n g).1 = n.
Proof.
  revert g. induction n as [|n IH]; intros g; simpl; [done|].
  destruct (np_randint (len pool) g) as [i g1].
  specialize (IH g1). destruct (draws pool n g1) as [rest g2].
  simpl in *. by rewrite IH.
Qed.

Lemma elem_of_draws pool n g x :
  pool ≠ [] → x ∈ (draws pool n g).1 → x ∈ pool.
Proof.
  intros Hne. revert g. induction n as [|n IH]; intros g; simpl.
  { by intros ?%elem_of_nil. }
  pose proof (np_randint_range (len pool) g) as Hr.
  destruct (np_randint (len pool) g) as [i g1].
  specialize (IH g1). destruct (draws pool n g1) as [rest g2]. simpl in *.
  intros [->|Hx]%elem_of_cons; [|by apply IH].
  assert (0 < len pool) as Hlen.
  { unfold len. destruct pool; [done|]. simpl. lia. }
  specialize (Hr Hlen).
  destruct (lookup_lt_is_Some_2 pool (Z.to_nat i)) as [y Hy].
  { unfold len in Hr. lia. }
  rewrite Hy. simpl. by eapply list_elem_of_lookup_2.
Qed.

Lemma length_sample_users n pools g :
  length (sample_users n pools g).1 = length pools.
Proof.
  revert g. induction pools as [|pool pools IH]; intros g; simpl; [done|].
  destruct (draws pool n g) as [negs g1].
  specialize (IH g1). destruct (sample_users n pools g1) as [rest g2].
  simpl in *. by rewrite IH.
Qed.

Lemma sample_users_lookup n pools g i negs :
  (sample_users n pools g).1 !! i = Some negs →
  ∃ pool g', pools !! i = Some pool ∧ negs = (draws pool n g').1.
Proof.
  revert g i. induction pools as [|pool pools IH]; intros g i; simpl; [done|].
  destruct (draws pool n g) as [negs1 g1] eqn:Hd.
  specialize (IH g1). destruct (sample_users n pools g1) as [rest g2].
  destruct i as [|i]; simpl.
  - intros [= <-]. exists pool, g. by rewrite Hd.
  - apply IH.
Qed.

(** [np.random.choice] against [draws]. *)
Lemma np_random_randint_draws a k g :
  0 < len a →
  mapM_result (array_get a) (np_random_randint (len a) k g).1
    = Ok (draws a k g).1
  ∧ (np_random_randint (len a) k g).2 = (draws a k g).2.
Proof.
  intros Hlen. revert g. induction k as [|k IH]; intros g; simpl; [done|].
  pose proof (np_randint_range (len a) g Hlen) as Hr.
  destruct (np_randint (len a) g) as [i g1]. simpl in Hr.
  destruct (IH g1) as [IH1 IH2].
  destruct (np_random_randint (len a) k g1) as [idx g2].
  destruct (draws a k g1) as [rest g3]. simpl in *.
  rewrite IH1. simpl. split; [|done].
  unfold array_get. rewrite decide_True by lia.
  destruct (lookup_lt_is_Some_2 a (Z.to_nat i)) as [y Hy].
  { unfold len in Hr. lia. }
  by rewrite Hy.
Qed.

Lemma np_random_choice_spec a size g :
  np_random_choice a size g =
    match choice_error a size with
    | Some e => Err e
    | None => Ok (draws a (Z.to_nat size) g)
    end.
Proof.
  unfold np_random_choice, choice_error.
  destruct a as [|x a].
  - destruct (decide (size = 0)) as [->|Hsz].
    + rewrite !decide_False by naive_solver.
      by destruct (np_size_error 0).
    + by rewrite !decide_True by done.
  - rewrite decide_False by (unfold len; simpl; lia).
    rewrite decide_False by naive_solver.
    destruct (np_size_error size); [done|].
    destruct (np_random_randint_draws (x :: a) (Z.to_nat size) g) as [H1 H2].
    { unfold len. simpl. lia. }
    destruct (np_random_randint (len (x :: a)) (Z.to_nat size) g) as [idx g'].
    simpl in *. rewrite H1, H2. by destruct (draws _ _ _).
Qed.

(** When the loop over the pools raises, and what. *)
Lemma choice_error_None a size :
  choice_error a size = None ↔
  np_size_error size = None ∧ (size = 0 ∨ a ≠ []).
Proof.
  unfold choice_error. case_decide as Hd.
  - split; [done|]. intros [_ [?|?]]; naive_solver.
  - split; [|tauto]. intros Hs. split; [done|].
    destruct (decide (size = 0)); [by left|right]. naive_solver.
Qed.

Lemma choice_error_Some a size e :
  choice_error a size = Some e → library_error e.
Proof.
  unfold choice_error. case_decide.
  - intros [= <-]. by left.
  - apply np_size_error_kind.
Qed.

Lemma loop_error_None size pools :
  loop_error size pools = None ↔
  pools = [] ∨
  (np_size_error size = None ∧ (size = 0 ∨ Forall (λ a, a ≠ []) pools)).
Proof.
  induction pools as [|a pools IH]; simpl; [naive_solver|].
  destruct (choice_error a size) as [e|] eqn:Ha.
  - split; [done|]. intros [?|[Hs Hp]]; [done|].
    assert (choice_error a size = None) as Hn; [|congruence].
    apply choice_error_None. split; [done|].
    destruct Hp as [?|Hp]; [by left|right]. by inversion Hp.
  - apply choice_error_None in Ha as [Hs Ha]. rewrite IH. split.
    + intros Hp. right. split; [done|].
      destruct (decide (size = 0)) as [?|Hsz]; [by left|right].
      constructor; [naive_solver|].
      destruct Hp as [->|[_ [?|?]]]; [constructor|done..].
    + intros [?|[_ Hp]]; [done|]. right. split; [done|].
      destruct Hp as [?|Hp]; [by left|right]. by inversion Hp.
Qed.

Lemma loop_error_Some size pools e :
  loop_error size pools = Some e → library_error e.
Proof.
  induction pools as [|a pools IH]; simpl; [done|].
  destruct (choice_error a size) as [e'|] eqn:Ha; [|done].
  intros [= <-]. by eapply choice_error_Some.
Qed.

(** For a number of draws that the library delivers the only exception
    is the [ValueError] of an empty pool. *)
Lemma loop_error_delivered size pools e :
  np_size_error size = None →
  loop_error size pools = Some e ↔
  e = ValueError ∧ size ≠ 0 ∧ Exists (λ a, a = []) pools.
Proof.
  intros Hs. induction pools as [|a pools IH]; simpl.
  { split; [done|]. by intros (_ & _ & ?%Exists_nil). }
  unfold choice_error. rewrite Hs. case_decide as Hd.
  - split.
    + intros [= <-]. split_and!; [done|tauto|]. left. tauto.
    + by intros (-> & _).
  - rewrite IH, Exists_cons. naive_solver.
Qed.

End Sampler.

(** ** The loop over users *)

Section Loop.
Context `{Libraries}.

Lemma sample_user_spec negatives all_items d0 st u g :
  items_of (user_to_items st) u = items_of d0 u →
  items_of d0 u ≠ [] →
  test_pair d0 u ∈ all_ratings st →
  sample_user negatives all_items st u g =
    match choice_error (pool all_items d0 u) negatives with
    | Some e => Err e
    | None => Ok (loop_result (Z.to_nat negatives) all_items d0 [u] st g)
    end.
Proof.
  intros Hd Hne Hin. unfold sample_user.
  unfold mbind, M_mbind, bind, lift, loop_result. simpl.
  rewrite Hd.
  destruct (last (items_of d0 u)) as [ti|] eqn:Hlast;
    [|by apply last_None in Hlast].
  assert (pop (items_of d0 u) = Ok (ti, history d0 u)) as ->.
  { unfold pop. by rewrite Hlast. }
  assert (held_out d0 u = ti) as Hti.
  { unfold held_out. by rewrite Hlast. }
  unfold test_pair in *. rewrite Hti in *.
  unfold set_remove. rewrite decide_True by done.
  fold (pool all_items d0 u).
  rewrite np_random_choice_spec.
  destruct (choice_error _ _); [done|].
  destruct (draws (pool all_items d0 u) (Z.to_nat negatives) g) as [negs g'].
  unfold mret, M_ret, ret. do 3 f_equal. set_solver.
Qed.

Lemma loop_ready_cons d0 u users st negatives all_items g :
  loop_ready d0 (u :: users) st →
  loop_ready d0 users (loop_result negatives all_items d0 [u] st g).1.
Proof.
  intros [Hnd Hst]. apply NoDup_cons in Hnd as [Hu Hnd].
  split; [done|]. intros u' Hu'.
  destruct (Hst u') as (Hd & Hne & Hin); [by right|].
  assert (u ≠ u') by (by intros ->).
  unfold loop_result. simpl.
  destruct (draws _ _ _) as [negs g1]. simpl.
  split_and!; [|done|].
  - unfold items_of in *. by rewrite lookup_insert_ne.
  - unfold test_pair in *. set_solver.
Qed.

Lemma loop_ready_prefix d0 users1 users2 st :
  loop_ready d0 (users1 ++ users2) st → loop_ready d0 users1 st.
Proof.
  intros [Hnd Hst]. split.
  - by apply NoDup_app in Hnd as (? & _).
  - intros u Hu. apply Hst, elem_of_app. by left.
Qed.

Lemma loop_result_cons n all_items d0 u users st g :
  loop_result n all_items d0 (u :: users) st g =
    let r := loop_result n all_items d0 [u] st g in
    loop_result n all_items d0 users r.1 r.2.
Proof.
  unfold loop_result. simpl.
  destruct (draws _ _ _) as [negs g1]. simpl.
  destruct (sample_users _ _ _) as [rest g2]. simpl.
  f_equal. f_equal.
  - set_solver.
  - by rewrite <-app_assoc.
  - by rewrite <-app_assoc.
Qed.

(** The loop ends in [loop_result], or in the first exception that a
    call of [np.random.choice] raises, and in nothing else. *)
Lemma for_users_spec negatives all_items d0 users st g :
  loop_ready d0 users st →
  for_users negatives all_items users st g =
    match loop_error negatives (pool all_items d0 <$> users) with
    | Some e => Err e
    | None => Ok (loop_result (Z.to_nat negatives) all_items d0 users st g)
    end.
Proof.
  revert st g. induction users as [|u users IH]; intros st g Hready.
  { simpl. unfold loop_result. simpl. unfold mret, M_ret, ret.
    destruct st. simpl. by rewrite app_nil_r, app_nil_r, difference_empty_L. }
  simpl. unfold mbind, M_mbind, bind.
  destruct (proj2 Hready u) as (Hd & Hne & Hin); [left|].
  rewrite (sample_user_spec _ _ d0) by done.
  destruct (choice_error (pool all_items d0 u) negatives); [done|].
  destruct (loop_result _ _ d0 [u] st g) as [st1 g1] eqn:Hst1.
  pose proof (loop_ready_cons d0 u users st (Z.to_nat negatives) all_items g
                Hready) as Hready1.
  rewrite Hst1 in Hready1. simpl in Hready1.
  rewrite (IH st1 g1 Hready1).
  rewrite loop_result_cons, Hst1. simpl.
  by destruct (loop_error _ _).
Qed.

Lemma for_users_app negatives all_items users1 users2 st g :
  for_users negatives all_items (users1 ++ users2) st g =
    match for_users negatives all_items users1 st g with
    | Ok (st', g') => for_users negatives all_items users2 st' g'
    | Err e => Err e
    end.
Proof.
  revert st g. induction users1 as [|u users1 IH]; intros st g; simpl; [done|].
  unfold mbind, M_mbind, bind.
  destruct (sample_user negatives all_items st u g) as [[st1 g1]|e]; [|done].
  apply IH.
Qed.

(** The turn of user [u] comes after the turns of [range u]. *)
Lemma range_split n u :
  0 ≤ u < n → range n = range u ++ u :: seqZ (u + 1) (n - u - 1).
Proof.
  intros Hu. unfold range.
  replace n with (u + (1 + (n - u - 1))) at 1 by lia.
  rewrite seqZ_app by lia. f_equal. simpl.
  rewrite seqZ_app by lia. by rewrite Z.add_0_l.
Qed.

End Loop.

(** ** From the raw table to the end of the loop *)

Section Main.
Context `{Libraries}.

Lemma items_of_lists_before rm u :
  items_of (lists_before rm) u = item_id <$> group (sorted_df rm) u.
Proof. apply items_of_item_lists. Qed.

Lemma group_sorted_df rm u :
  group (sorted_df rm) u ≡ₚ group (remapped_df rm) u.
Proof. apply group_Permutation, sort_values_perm. Qed.

Lemma len_lists_before df rm u :
  remap_of df rm → 0 ≤ u < len (original_users rm) →
  ∃ uid, original_users rm !! Z.to_nat u = Some uid ∧
         len (items_of (lists_before rm) u) = len (group df uid) ∧
         0 < len (group df uid).
Proof.
  intros Hrm Hu. destruct (remap_of_users df rm u Hrm Hu) as (uid & ? & Hlen & ?).
  exists uid. split_and!; [done| |done].
  rewrite <-Hlen, items_of_lists_before. unfold len.
  by rewrite length_fmap, (group_sorted_df rm u).
Qed.

Lemma loop_ready_before df rm :
  remap_of df rm →
  loop_ready (lists_before rm) (user_indices rm) (state_before rm).
Proof.
  intros Hrm. split; [apply NoDup_seqZ|].
  intros u Hu%elem_of_seqZ.
  destruct (len_lists_before df rm u Hrm) as (uid & _ & Hlen & Hpos); [lia|].
  assert (items_of (lists_before rm) u ≠ []) as Hne.
  { intros Heq. rewrite Heq in Hlen. unfold len in *. simpl in *. lia. }
  split_and!; [done..|].
  unfold test_pair, held_out. simpl.
  destruct (last (items_of (lists_before rm) u)) as [ti|] eqn:Hlast;
    [|by apply last_None in Hlast].
  simpl. rewrite items_of_lists_before, fmap_last in Hlast.
  destruct (last (group (sorted_df rm) u)) as [r|] eqn:Hr; [|done].
  injection Hlast as <-.
  apply last_Some_elem_of, elem_of_group in Hr as [Hr <-].
  apply elem_of_ratings_set. by exists r.
Qed.

(** The three stages of [pipeline], case by case. *)
Lemma pipeline_seed seed negatives ratings g0 :
  ¬ (0 ≤ seed < 2 ^ 32) →
  pipeline seed negatives ratings g0 = Err ValueError.
Proof.
  intros Hseed. unfold pipeline, mbind, M_mbind, bind, np_random_seed.
  by rewrite decide_False by done.
Qed.

Lemma pipeline_empty seed negatives ratings g0 :
  0 ≤ seed < 2 ^ 32 →
  filter_min_ratings ratings = [] →
  pipeline seed negatives ratings g0 = Err AssertionError.
Proof.
  intros Hseed Hdf.
  unfold pipeline, mbind, M_mbind, bind, np_random_seed, lift.
  rewrite decide_True by done. by rewrite Hdf, remap_ids_nil.
Qed.

Lemma pipeline_spec seed negatives ratings g0 :
  0 ≤ seed < 2 ^ 32 →
  filter_min_ratings ratings ≠ [] →
  ∃ rm, remap_ids (filter_min_ratings ratings) = Ok rm ∧
    pipeline seed negatives ratings g0 =
      match loop_error negatives
              (pool (catalogue rm) (lists_before rm) <$> user_indices rm) with
      | Some e => Err e
      | None =>
          let r := loop_result (Z.to_nat negatives) (catalogue rm)
                     (lists_before rm) (user_indices rm) (state_before rm)
                     (np_seed seed) in
          Ok ((rm, r.1), r.2)
      end.
Proof.
  intros Hseed Hne. destruct (remap_ids_Ok _ Hne) as (df' & Hrm & HF).
  eexists. split; [exact Hrm|].
  pose proof (remap_ids_inv _ _ Hrm) as [_ Hof].
  unfold pipeline, mbind, M_mbind, bind, np_random_seed, lift.
  rewrite decide_True by done.
  rewrite Hrm. unfold split.
  erewrite for_users_spec; [|by apply (loop_ready_before _ _ Hof)].
  set (rm := Remapped _ _ df') in *.
  fold (user_indices rm) in *. fold (catalogue rm) (sorted_df rm) (lists_before rm).
  fold (state_before rm).
  destruct (loop_error _ _); [done|].
  by destruct (loop_result _ _ _ _ _ _).
Qed.

(** The user indices of a remapped table that is not empty. *)
Lemma user_indices_nonempty df rm :
  df ≠ [] → remap_of df rm → user_indices rm ≠ [].
Proof.
  intros Hne (Hu & _). unfold user_indices. rewrite Hu.
  destruct df as [|r df]; [done|].
  unfold range, len. simpl. rewrite seqZ_cons by lia. done.
Qed.

(** A run ends well only on a seed and a number of draws that the
    library takes. *)
Lemma pipeline_Ok_args seed negatives ratings g0 r :
  pipeline seed negatives ratings g0 = Ok r →
  0 ≤ seed < 2 ^ 32 ∧ filter_min_ratings ratings ≠ [] ∧
  np_size_error negatives = None.
Proof.
  intros Hrun.
  destruct (decide (0 ≤ seed < 2 ^ 32)) as [Hseed|Hseed].
  2:{ by rewrite pipeline_seed in Hrun. }
  destruct (decide (filter_min_ratings ratings = [])) as [Hnil|Hne].
  { by rewrite pipeline_empty in Hrun. }
  split; [done|]. split; [done|].
  destruct (pipeline_spec seed negatives ratings g0 Hseed Hne)
    as (rm & Hrm & Hp).
  rewrite Hp in Hrun.
  destruct (loop_error _ _) eqn:Herr; [done|].
  apply loop_error_None in Herr as [Hnil|[? _]]; [|done].
  apply fmap_nil_inv in Hnil.
  apply remap_ids_inv in Hrm as [_ Hof].
  by destruct (user_indices_nonempty _ _ Hne Hof).
Qed.

Lemma pipeline_Ok seed negatives ratings g0 rm st g :
  pipeline seed negatives ratings g0 = Ok ((rm, st), g) →
  run_ok seed negatives ratings rm st g.
Proof.
  intros Hrun.
  destruct (pipeline_Ok_args _ _ _ _ _ Hrun) as (Hseed & Hne & Hsize).
  destruct (pipeline_spec seed negatives ratings g0 Hseed Hne)
    as (rm' & Hrm & Hp).
  rewrite Hp in Hrun. clear Hp.
  destruct (loop_error _ _) eqn:Herr; [done|].
  unfold loop_result in Hrun.
  destruct (sample_users _ _ _) as [negs g'] eqn:Hs.
  simpl in Hrun. injection Hrun as -> <- <-.
  pose proof (remap_ids_inv _ _ Hrm) as [_ Hof].
  split; simpl.
  - done.
  - done.
  - apply np_size_error_range in Hsize. lia.
  - apply loop_error_None in Herr as [Hnil|[_ [?|Hall]]]; [|by left|].
    + apply fmap_nil_inv in Hnil.
      by destruct (user_indices_nonempty _ _ Hne Hof).
    + right. rewrite Forall_forall in Hall. apply Forall_forall.
      intros u Hu. apply Hall, list_elem_of_fmap. eauto.
  - intros u. apply items_of_foldl_insert.
  - f_equal. apply ratings_set_Permutation, sort_values_perm.
  - done.
  - done.
Qed.

Lemma main_Ok seed negatives ratings g0 fs g :
  main seed negatives ratings g0 = Ok (fs, g) ↔
  ∃ rm st, pipeline seed negatives ratings g0 = Ok ((rm, st), g) ∧
           fs = write (save st).
Proof.
  unfold main, mbind, M_mbind, bind, mret, M_ret, ret.
  destruct (pipeline seed negatives ratings g0) as [[[rm st] g']|e].
  - split.
    + intros [= <- <-]. eauto.
    + intros (rm' & st' & [= -> -> ->] & ->). done.
  - split; [done|]. by intros (? & ? & ? & _).
Qed.

Lemma main_Err seed negatives ratings g0 e :
  main seed negatives ratings g0 = Err e ↔
  pipeline seed negatives ratings g0 = Err e.
Proof.
  unfold main, mbind, M_mbind, bind, mret, M_ret, ret.
  destruct (pipeline seed negatives ratings g0) as [[[rm st] g']|e'];
    naive_solver.
Qed.

(** The state in which the turn of [u] begins. *)
Lemma turn_invariant negatives ratings rm u st g a :
  remap_of (filter_min_ratings ratings) rm →
  0 ≤ u < len (original_users rm) →
  for_users negatives (catalogue rm) (range u) (state_before rm) a = Ok (st, g) →
  items_of (user_to_items st) u = items_of (lists_before rm) u ∧
  MIN_RATINGS ≤ len (items_of (user_to_items st) u) ∧
  test_pair (lists_before rm) u ∈ all_ratings st.
Proof.
  intros Hof Hu Hrun.
  pose proof (loop_ready_before _ _ Hof) as Hready.
  unfold user_indices in Hready.
  rewrite (range_split _ u Hu) in Hready.
  destruct (proj2 Hready u) as (_ & _ & Hin); [set_solver|].
  pose proof Hready as [Hnd _].
  apply NoDup_app in Hnd as (_ & Hnotin & _).
  assert (u ∉ range u) as Hu'.
  { intros Hu'. apply (Hnotin u Hu'). left. }
  apply loop_ready_prefix in Hready.
  rewrite (for_users_spec _ _ _ _ _ _ Hready) in Hrun.
  destruct (loop_error _ _); [done|].
  unfold loop_result in Hrun. destruct (sample_users _ _ _) as [negs g'].
  injection Hrun as <- <-. simpl.
  assert (items_of (foldl (λ d u0, <[u0:=history (lists_before rm) u0]> d)
                      (lists_before rm) (range u)) u
          = items_of (lists_before rm) u) as Hitems.
  { rewrite items_of_foldl_insert. by rewrite decide_False. }
  split_and!.
  - done.
  - rewrite Hitems.
    destruct (len_lists_before _ _ u Hof Hu) as (uid & Huid & -> & _).
    destruct (retained_user_count _ _ _ _ Hof Huid) as [Hmin ->]. done.
  - apply elem_of_difference. split; [done|].
    rewrite elem_of_list_to_set, list_elem_of_fmap.
    intros (u' & [= <-] & Hu''). done.
Qed.

End Main.

(** ** What a run that ends well leaves behind *)

Section Run.
Context `{Libraries}.

(** The item held out for [u] is the item of a row of [u] that no other
    row of [u] follows in time. *)
Lemma held_out_row df rm u :
  remap_of df rm →
  0 ≤ u < len (original_users rm) →
  ∃ r, last (group (sorted_df rm) u) = Some r ∧
       item_id r = held_out (lists_before rm) u ∧
       r ∈ remapped_df rm ∧ user_id r = u ∧
       ∀ r', r' ∈ remapped_df rm → user_id r' = u →
             timestamp r' ≤ timestamp r.
Proof.
  intros Hof Hu.
  destruct (loop_ready_before _ _ Hof) as [_ Hready].
  destruct (Hready u) as (_ & Hne & _).
  { apply elem_of_seqZ. lia. }
  rewrite items_of_lists_before in Hne.
  destruct (last (group (sorted_df rm) u)) as [r|] eqn:Hlast.
  2:{ apply last_None in Hlast. by rewrite Hlast in Hne. }
  exists r. split; [done|].
  pose proof (last_Some_elem_of _ _ Hlast) as Hr.
  rewrite group_sorted_df in Hr. apply elem_of_group in Hr as [Hr Hur].
  split_and!; [|done..|].
  - unfold held_out. by rewrite items_of_lists_before, fmap_last, Hlast.
  - intros r' Hr' Hur'.
    apply (sorted_group_last (sorted_df rm) u); [apply sort_values_sorted|done|].
    rewrite group_sorted_df. by apply elem_of_group.
Qed.

Lemma held_out_in_catalogue df rm u :
  remap_of df rm → 0 ≤ u < len (original_users rm) →
  0 ≤ held_out (lists_before rm) u < len (original_items rm).
Proof.
  intros Hof Hu.
  destruct (held_out_row _ _ u Hof Hu) as (r & _ & <- & Hr & _).
  destruct Hof as (_ & _ & HF).
  apply list_elem_of_lookup in Hr as [k Hk].
  destruct (Forall2_lookup_r _ _ _ _ _ HF Hk) as (r0 & _ & _ & [Hpos Hi] & _).
  apply lookup_lt_Some in Hi. unfold len.
  split; [done|]. apply Nat2Z.inj_lt in Hi. by rewrite Z2Nat.id in Hi.
Qed.

Lemma pool_catalogue rm d0 u :
  pool (catalogue rm) d0 u
  = filter (λ i, i ∉ history d0 u) (range (len (original_items rm))).
Proof. apply candidates_range. Qed.

(** The pools of a finished run, read off the lists that the loop left. *)
Lemma pools_after seed negatives ratings rm st g :
  run_ok seed negatives ratings rm st g →
  pool (catalogue rm) (lists_before rm) <$> user_indices rm
  = (λ u, filter (λ i, i ∉ items_of (user_to_items st) u)
            (range (len (original_items rm))))
      <$> range (len (original_users rm)).
Proof.
  intros [_ _ _ _ Hlists _ _ _].
  apply list_fmap_ext. intros k u Hu.
  rewrite pool_catalogue, Hlists.
  rewrite decide_True; [done|]. by eapply list_elem_of_lookup_2.
Qed.

Lemma run_length_tests seed negatives ratings rm st g :
  run_ok seed negatives ratings rm st g →
  length (test_ratings st) = length (original_users rm).
Proof.
  intros [_ _ _ _ _ _ Htests _].
  rewrite Htests, length_fmap. unfold user_indices, range.
  rewrite length_seqZ. unfold len. lia.
Qed.

Lemma run_length_negs seed negatives ratings rm st g :
  run_ok seed negatives ratings rm st g →
  length (test_negs st) = length (original_users rm).
Proof.
  intros [_ _ _ _ _ _ _ Hsample].
  assert (test_negs st
          = (sample_users (Z.to_nat negatives)
               (pool (catalogue rm) (lists_before rm) <$> user_indices rm)
               (np_seed seed)).1) as -> by by rewrite <-Hsample.
  rewrite length_sample_users, length_fmap. unfold user_indices, range.
  rewrite length_seqZ. unfold len. lia.
Qed.

(** The row of negatives of user [u]: as many as asked for, each a
    candidate of [u]. *)
Lemma run_negs_lookup seed negatives ratings rm st g u negs :
  run_ok seed negatives ratings rm st g →
  0 ≤ u → test_negs st !! Z.to_nat u = Some negs →
  u < len (original_users rm) ∧
  len negs = negatives ∧
  ∀ x, x ∈ negs →
    x ∈ filter (λ i, i ∉ items_of (user_to_items st) u)
          (range (len (original_items rm))).
Proof.
  intros Hok Hu Hnegs.
  pose proof (run_length_negs _ _ _ _ _ _ Hok) as Hlen.
  destruct Hok as [Hne Hof Hpos Hnonempty Hlists Hratings Htests Hsample].
  assert (test_negs st
          = (sample_users (Z.to_nat negatives)
               (pool (catalogue rm) (lists_before rm) <$> user_indices rm)
               (np_seed seed)).1) as Hst by by rewrite <-Hsample.
  assert (u < len (original_users rm)) as Hlt.
  { apply lookup_lt_Some in Hnegs. rewrite Hlen in Hnegs. unfold len. lia. }
  assert (u ∈ user_indices rm) as Hin by (apply elem_of_seqZ; lia).
  rewrite Hst in Hnegs.
  apply sample_users_lookup in Hnegs as (p & g' & Hp & ->).
  assert (p = pool (catalogue rm) (lists_before rm) u) as ->.
  { rewrite list_lookup_fmap in Hp. unfold user_indices, range in Hp.
    rewrite lookup_seqZ_lt in Hp by lia. simpl in Hp.
    injection Hp as <-. f_equal. lia. }
  split_and!; [done| |].
  - unfold len. rewrite length_draws. lia.
  - intros x Hx.
    rewrite Hlists, decide_True, <-pool_catalogue by done.
    apply (elem_of_draws _ (Z.to_nat negatives) g'); [|done].
    destruct Hnonempty as [->|Hall].
    + simpl in Hx. by apply elem_of_nil in Hx.
    + rewrite Forall_forall in Hall. by apply Hall.
Qed.

End Run.

(** ** Tables without repeated ratings *)

Section NoRepeats.
Context `{Libraries}.

Lemma NoDup_items_before df rm u :
  remap_of df rm → NoDup (pair_of <$> df) →
  NoDup (items_of (lists_before rm) u).
Proof.
  intros Hof Hnd%(remap_of_NoDup _ _ Hof).
  rewrite items_of_lists_before.
  assert (NoDup (pair_of <$> group (sorted_df rm) u)) as Hg.
  { apply NoDup_fmap_filter. unfold sorted_df. by rewrite sort_values_perm. }
  assert (item_id <$> group (sorted_df rm) u
          = snd <$> (pair_of <$> group (sorted_df rm) u)) as ->.
  { by rewrite <-list_fmap_compose. }
  apply NoDup_fmap_2_strong; [|done].
  intros p q (r1 & -> & [_ Hu1]%elem_of_group)%list_elem_of_fmap
             (r2 & -> & [_ Hu2]%elem_of_group)%list_elem_of_fmap.
  unfold pair_of. simpl. congruence.
Qed.

(** Without repeated ratings the held-out item of a user is one of the
    candidates of the user. *)
Lemma held_out_in_pool df rm u :
  remap_of df rm → NoDup (pair_of <$> df) →
  0 ≤ u < len (original_users rm) →
  held_out (lists_before rm) u ∈ pool (catalogue rm) (lists_before rm) u.
Proof.
  intros Hof Hnd Hu.
  rewrite pool_catalogue, list_elem_of_filter. split.
  - apply held_out_not_in_history; [by eapply NoDup_items_before|].
    destruct (loop_ready_before _ _ Hof) as [_ Hready].
    destruct (Hready u) as (_ & ? & _); [apply elem_of_seqZ; lia|done].
  - apply elem_of_seqZ. pose proof (held_out_in_catalogue _ _ u Hof Hu). lia.
Qed.

(** A table without repeated ratings, of which some row passes the
    filter, is processed to the end for every seed that
    [np.random.seed] takes and every number of negatives that
    [np.random.choice] delivers. *)
Lemma pipeline_total seed negatives ratings g0 :
  0 ≤ seed < 2 ^ 32 → np_size_error negatives = None →
  filter_min_ratings ratings ≠ [] →
  NoDup (pair_of <$> ratings) →
  ∃ r, pipeline seed negatives ratings g0 = Ok r.
Proof.
  intros Hseed Hsize Hne Hnd.
  destruct (pipeline_spec seed negatives ratings g0 Hseed Hne)
    as (rm & Hrm & ->).
  apply remap_ids_inv in Hrm as [_ Hof].
  destruct (loop_error _ _) as [e|] eqn:Herr; [|eauto].
  apply (loop_error_delivered _ _ _ Hsize) in Herr as (_ & _ & Hex).
  apply Exists_fmap, Exists_exists in Hex as (u & Hu%elem_of_seqZ & Hempty).
  assert (held_out (lists_before rm) u
          ∈ pool (catalogue rm) (lists_before rm) u) as Hin.
  { eapply held_out_in_pool; [done| |lia].
    by apply NoDup_fmap_filter. }
  rewrite Hempty in Hin. by apply elem_of_nil in Hin.
Qed.

End NoRepeats.

(** ** The tables and files that are written *)

Section Written.
Context `{Libraries}.

Lemma elem_of_set_iter (s : gset (Z * Z)) p : p ∈ set_iter s ↔ p ∈ s.
Proof. by rewrite set_iter_perm, elem_of_elements. Qed.

Lemma NoDup_set_iter (s : gset (Z * Z)) : NoDup (set_iter s).
Proof. rewrite set_iter_perm. apply NoDup_elements. Qed.

Lemma elem_of_df_train_ratings st row :
  row ∈ df_train_ratings (save st) ↔
  ∃ u i, row = [u; i; 1] ∧ (u, i) ∈ all_ratings st.
Proof.
  unfold save. simpl. rewrite list_elem_of_fmap. split.
  - intros ([u i] & -> & Hp%elem_of_set_iter). by exists u, i.
  - intros (u & i & -> & Hp). exists (u, i). by rewrite elem_of_set_iter.
Qed.

Lemma NoDup_df_train_ratings st : NoDup (df_train_ratings (save st)).
Proof.
  unfold save. simpl. apply NoDup_fmap_2; [|apply NoDup_set_iter].
  intros [u i] [u' i'] [= -> ->]. done.
Qed.

End Written.

Lemma to_csv_nil : to_csv [] = EmptyString.
Proof. reflexivity. Qed.

Lemma to_csv_cons r df : to_csv (r :: df) = csv_line r +:+ to_csv df.
Proof. reflexivity. Qed.

Lemma string_append_assoc (s1 s2 s3 : string) :
  (s1 +:+ s2) +:+ s3 = s1 +:+ s2 +:+ s3.
Proof.
  induction s1 as [|c s1 IH]; [done|]. exact (f_equal (String c) IH).
Qed.

(** A row of three values is written as the three numbers with a tab
    between them and a line feed after them. *)
Lemma csv_line_triple a b c :
  csv_line [a; b; c]
  = pretty a +:+ tab +:+ pretty b +:+ tab +:+ pretty c +:+ newline.
Proof.
  unfold csv_line. simpl. by rewrite !string_append_assoc.
Qed.

(** ** [strip], [split] and the lines that [to_csv] writes *)

Module EvalNcfFacts.
Import EvalNcf.

Lemma length_split sep s : length (split sep s) = S (count sep s).
Proof.
  induction s as [|c s IH]; [done|]. simpl.
  destruct (Ascii.eqb c sep); simpl; [by rewrite IH|].
  destruct (split sep s) as [|t ts]; simpl in *; lia.
Qed.

Lemma split_no_sep sep s : Forall (λ t, count sep t = 0%nat) (split sep s).
Proof.
  induction s as [|c s IH]; simpl; [by repeat constructor|].
  destruct (Ascii.eqb c sep) eqn:Hc; [by constructor|].
  destruct (split sep s) as [|t ts]; simpl.
  - repeat constructor. simpl. by rewrite Hc.
  - inversion IH as [|?? Ht Hts]; subst. constructor; [|done].
    simpl. by rewrite Hc.
Qed.

(** Joining the pieces with the separator gives the string back. *)
Lemma concat_split sep s :
  String.concat (String sep EmptyString) (split sep s) = s.
Proof.
  induction s as [|c s IH]; [done|]. simpl.
  destruct (Ascii.eqb_spec c sep) as [->|Hne].
  - pose proof (length_split sep s) as Hlen.
    destruct (split sep s) as [|t ts] eqn:Hs; [done|].
    simpl. simpl in IH. by rewrite IH.
  - pose proof (length_split sep s) as Hlen.
    destruct (split sep s) as [|t ts] eqn:Hs; [done|].
    simpl in *. destruct ts as [|t' ts]; simpl in *; by rewrite <-IH.
Qed.

Lemma count_app c s1 s2 : count c (s1 +:+ s2) = (count c s1 + count c s2)%nat.
Proof. induction s1 as [|c' s1 IH]; simpl; [done|]. rewrite IH. lia. Qed.

Lemma count_lstrip c s : (count c (lstrip s) ≤ count c s)%nat.
Proof.
  induction s as [|c' s IH]; simpl; [done|].
  destruct (isspace c'); simpl; lia.
Qed.

Lemma count_rstrip c s : (count c (rstrip s) ≤ count c s)%nat.
Proof.
  induction s as [|c' s IH]; simpl; [done|].
  destruct (rstrip s) as [|c'' r]; simpl in *.
  - destruct (isspace c'); simpl; lia.
  - lia.
Qed.

Lemma rstrip_cons_nonspace c s :
  isspace c = false → rstrip (String c s) = String c (rstrip s).
Proof. intros Hc. simpl. destruct (rstrip s); by rewrite ?Hc. Qed.

Lemma lstrip_rstrip s : lstrip (rstrip s) = rstrip (lstrip s).
Proof.
  induction s as [|c s IH]; [done|].
  destruct (isspace c) eqn:Hc.
  - simpl lstrip at 2. rewrite Hc, <-IH. simpl.
    destruct (rstrip s) as [|c' r]; simpl; by rewrite Hc.
  - rewrite rstrip_cons_nonspace by done. simpl. rewrite Hc.
    by rewrite rstrip_cons_nonspace.
Qed.

Lemma lstrip_blank_app a s : blank a = true → lstrip (a +:+ s) = lstrip s.
Proof.
  induction a as [|c a IH]; simpl; [done|].
  intros [Hc Ha]%andb_prop. rewrite Hc. by apply IH.
Qed.

Lemma rstrip_blank s : blank s = true → rstrip s = EmptyString.
Proof.
  induction s as [|c s IH]; simpl; [done|].
  intros [Hc Hs]%andb_prop. by rewrite IH, Hc.
Qed.

Lemma rstrip_app_blank s c : blank c = true → rstrip (s +:+ c) = rstrip s.
Proof.
  intros Hc. induction s as [|c' s IH]; simpl.
  - by apply rstrip_blank.
  - by rewrite IH.
Qed.

Lemma lstrip_TAB s : lstrip (String TAB s) = lstrip s.
Proof. reflexivity. Qed.

Lemma blank_TAB c : blank c = true → blank (String TAB c) = true.
Proof. done. Qed.

Lemma count_TAB_cons s : count TAB (String TAB s) = S (count TAB s).
Proof. reflexivity. Qed.

(** Stripping never adds a tab, and it removes a tab that has only white
    space before it or only white space after it. *)
Lemma count_strip s : (count TAB (strip s) ≤ count TAB s)%nat.
Proof.
  unfold strip. etrans; [apply count_rstrip|apply count_lstrip].
Qed.

Lemma count_strip_leading a s :
  blank a = true →
  (count TAB (strip (a +:+ String TAB s)) < count TAB (a +:+ String TAB s))%nat.
Proof.
  intros Ha. unfold strip. rewrite lstrip_blank_app by done.
  rewrite lstrip_TAB, count_app, count_TAB_cons.
  pose proof (count_rstrip TAB (lstrip s)). pose proof (count_lstrip TAB s). lia.
Qed.

Lemma count_strip_trailing s c :
  blank c = true →
  (count TAB (strip (s +:+ String TAB c)) < count TAB (s +:+ String TAB c))%nat.
Proof.
  intros Hc. unfold strip. rewrite <-lstrip_rstrip.
  rewrite rstrip_app_blank by by apply blank_TAB.
  rewrite count_app, count_TAB_cons.
  pose proof (count_lstrip TAB (rstrip s)). pose proof (count_rstrip TAB s). lia.
Qed.

Lemma read_line_kept st line :
  count TAB (strip line) = 2%nat →
  ∃ a b c,
    read_line st line
      = {| user := user st ++ [a]; item := item st ++ [b];
           score := score st ++ [c]; num_samples := num_samples st + 1 |} ∧
    strip line = a +:+ String TAB (b +:+ String TAB c) ∧
    count TAB a = 0%nat ∧ count TAB b = 0%nat ∧ count TAB c = 0%nat.
Proof.
  intros Hcount. unfold read_line.
  pose proof (length_split TAB (strip line)) as Hlen.
  pose proof (split_no_sep TAB (strip line)) as Hno.
  pose proof (concat_split TAB (strip line)) as Hcat.
  rewrite Hcount in Hlen.
  destruct (split TAB (strip line)) as [|a [|b [|c [|? ?]]]]; try done.
  exists a, b, c. rewrite decide_False by (simpl; lia). simpl.
  split; [done|]. split; [by rewrite <-Hcat|].
  inversion Hno as [|?? Ha Hno']; subst.
  inversion Hno' as [|?? Hb Hno'']; subst.
  by inversion Hno'' as [|?? Hc _]; subst.
Qed.

Lemma read_line_skipped st line :
  count TAB (strip line) ≠ 2%nat → read_line st line = st.
Proof.
  intros Hcount. unfold read_line.
  rewrite decide_True; [done|]. rewrite length_split. lia.
Qed.

(** Strings without white space, and what the reader does on them. *)
Lemma solid_app s1 s2 : solid s1 = true → solid s2 = true → solid (s1 +:+ s2) = true.
Proof.
  induction s1 as [|c s1 IH]; simpl; [done|].
  intros [Hc Hs]%andb_prop ?. rewrite Hc. simpl. by apply IH.
Qed.

Lemma count_solid c s : isspace c = true → solid s = true → count c s = 0%nat.
Proof.
  intros Hc. induction s as [|c' s IH]; simpl; [done|].
  intros [Hc' Hs]%andb_prop. rewrite IH by done.
  destruct (Ascii.eqb_spec c' c) as [->|]; [|done].
  by rewrite Hc in Hc'.
Qed.

Lemma rstrip_solid s : solid s = true → rstrip s = s.
Proof.
  induction s as [|c s IH]; [done|]. simpl solid.
  intros [Hc Hs]%andb_prop. apply negb_true_iff in Hc.
  by rewrite rstrip_cons_nonspace, IH.
Qed.

Lemma rstrip_app_nonempty s x :
  rstrip x ≠ EmptyString → rstrip (s +:+ x) = s +:+ rstrip x.
Proof.
  intros Hx. induction s as [|c s IH]; [reflexivity|].
  change (String c s +:+ x) with (String c (s +:+ x)).
  change (String c s +:+ rstrip x) with (String c (s +:+ rstrip x)).
  simpl. rewrite IH.
  destruct (s +:+ rstrip x) eqn:Heq; [|reflexivity].
  destruct s; [done|discriminate].
Qed.

Lemma lstrip_solid s x :
  solid s = true → s ≠ EmptyString → lstrip (s +:+ x) = s +:+ x.
Proof.
  destruct s as [|c s]; [done|]. simpl.
  intros [Hc _]%andb_prop _. apply negb_true_iff in Hc. by rewrite Hc.
Qed.

Lemma split_solid sep s : count sep s = 0%nat → split sep s = [s].
Proof.
  induction s as [|c s IH]; simpl; [done|].
  destruct (Ascii.eqb c sep); [done|]. intros Hs. by rewrite IH.
Qed.

Lemma split_app sep t s :
  count sep t = 0%nat → split sep (t +:+ String sep s) = t :: split sep s.
Proof.
  induction t as [|c t IH]; simpl.
  - by rewrite Ascii.eqb_refl.
  - destruct (Ascii.eqb c sep); [done|]. intros Ht. by rewrite IH.
Qed.

Lemma split_concat sep ts :
  ts ≠ [] → Forall (λ t, count sep t = 0%nat) ts →
  split sep (String.concat (String sep EmptyString) ts) = ts.
Proof.
  induction ts as [|t ts IH]; [done|]. intros _ Hts.
  inversion Hts as [|?? Ht Hts']; subst.
  destruct ts as [|t' ts].
  - by apply split_solid.
  - change (String.concat (String sep EmptyString) (t :: t' :: ts))
      with (t +:+ String sep (String.concat (String sep EmptyString) (t' :: ts))).
    rewrite split_app by done. f_equal. by apply IH.
Qed.


Lemma concat_tokens_nonempty sep ts :
  ts ≠ [] → Forall token ts → String.concat sep ts ≠ EmptyString.
Proof.
  destruct ts as [|t ts]; [done|]. intros _ Hts.
  inversion Hts as [|?? [Ht _] _]; subst.
  destruct ts; simpl; [done|]. by destruct t.
Qed.

Lemma rstrip_concat_tokens ts w :
  ts ≠ [] → Forall token ts → blank w = true →
  rstrip (String.concat (String TAB EmptyString) ts +:+ w)
  = String.concat (String TAB EmptyString) ts.
Proof.
  intros Hne Hts Hw. induction ts as [|t ts IH]; [done|].
  inversion Hts as [|?? [Ht Hsolid] Hts']; subst.
  destruct ts as [|t' ts].
  - simpl. rewrite rstrip_app_blank by done. by apply rstrip_solid.
  - change (String.concat (String TAB EmptyString) (t :: t' :: ts))
      with (t +:+ String TAB EmptyString
              +:+ String.concat (String TAB EmptyString) (t' :: ts)).
    specialize (IH ltac:(done) Hts').
    rewrite <-(string_append_assoc _ (String TAB EmptyString)).
    rewrite !string_append_assoc.
    rewrite <-(string_append_assoc t). rewrite rstrip_app_nonempty.
    + by rewrite IH, !string_append_assoc.
    + rewrite IH. by apply concat_tokens_nonempty.
Qed.

Lemma lstrip_concat_tokens sep ts w :
  ts ≠ [] → Forall token ts →
  lstrip (String.concat sep ts +:+ w) = String.concat sep ts +:+ w.
Proof.
  destruct ts as [|t ts]; [done|]. intros _ Hts.
  inversion Hts as [|?? [Ht Hsolid] _]; subst.
  destruct ts as [|t' ts]; simpl.
  - by apply lstrip_solid.
  - rewrite string_append_assoc. by apply lstrip_solid.
Qed.

Lemma strip_concat_tokens ts w :
  ts ≠ [] → Forall token ts → blank w = true →
  strip (String.concat (String TAB EmptyString) ts +:+ w)
  = String.concat (String TAB EmptyString) ts.
Proof.
  intros. unfold strip. rewrite lstrip_concat_tokens by done.
  by apply rstrip_concat_tokens.
Qed.

(** The decimal numerals are tokens. *)
Lemma isspace_pretty_N_char d : isspace (pretty_N_char d) = false.
Proof. unfold pretty_N_char. by repeat case_match. Qed.

Lemma pretty_N_go_token x s : token s → token (pretty_N_go x s).
Proof.
  revert s. induction (N.lt_wf_0 x) as [x _ IH]; intros s Hs.
  assert (x = 0 ∨ 0 < x)%N as [->|?] by lia.
  - by rewrite pretty_N_go_0.
  - rewrite pretty_N_go_step by done. apply IH; [by apply N.div_lt|].
    destruct Hs as [_ Hs]. split; [done|]. simpl.
    by rewrite isspace_pretty_N_char.
Qed.

Lemma pretty_N_token (x : N) : token (pretty x).
Proof.
  unfold pretty, pretty_N. case_decide; [done|].
  rewrite pretty_N_go_step by lia. apply pretty_N_go_token.
  split; [done|]. simpl. by rewrite isspace_pretty_N_char.
Qed.

Lemma pretty_Z_token (z : Z) : token (pretty z).
Proof.
  destruct z as [|p|p]; [done|apply pretty_N_token|].
  destruct (pretty_N_token (Npos p)) as [_ Hs]. split; [done|].
  change (pretty (Z.neg p)) with (String "-" (pretty (Npos p))).
  simpl. exact Hs.
Qed.

Lemma tokens_no_sep c ts :
  isspace c = true → Forall token ts → Forall (λ t, count c t = 0%nat) ts.
Proof.
  intros Hc Hts. eapply Forall_impl; [exact Hts|].
  intros t [_ Ht]. by apply count_solid.
Qed.

Lemma count_concat_tokens c ts :
  isspace c = true → c ≠ TAB → Forall token ts →
  count c (String.concat (String TAB EmptyString) ts) = 0%nat.
Proof.
  intros Hc Hne Hts. induction Hts as [|t ts [_ Ht] Hts IH]; [done|].
  destruct ts as [|t' ts].
  - by apply count_solid.
  - change (String.concat (String TAB EmptyString) (t :: t' :: ts))
      with (t +:+ String TAB (String.concat (String TAB EmptyString) (t' :: ts))).
    rewrite count_app.
    change (count c (String TAB ?s)) with
      ((if Ascii.eqb TAB c then 1 else 0) + count c s)%nat.
    rewrite IH, (count_solid c t) by done.
    destruct (Ascii.eqb_spec TAB c); [congruence|done].
Qed.

(** The lines of a text that [to_csv] wrote *)
Lemma universal_newlines_id s : count CR s = 0%nat → universal_newlines s = s.
Proof.
  induction s as [|c s IH]; [done|]. simpl.
  destruct (Ascii.eqb c CR); [done|]. intros Hs. by rewrite IH.
Qed.

Lemma file_lines_app body rest :
  count LF body = 0%nat →
  file_lines (body +:+ String LF rest) = (body +:+ String LF EmptyString) :: file_lines rest.
Proof.
  induction body as [|c body IH]; simpl; [done|].
  destruct (Ascii.eqb c LF); [done|]. intros Hb. by rewrite IH.
Qed.

Lemma csv_line_body r :
  csv_line r = String.concat (String TAB EmptyString) (pretty <$> r) +:+ String LF EmptyString.
Proof. reflexivity. Qed.

Lemma Forall_token_pretty (r : list Z) : Forall token (pretty <$> r).
Proof. apply Forall_fmap, Forall_forall. intros z _. apply pretty_Z_token. Qed.

Lemma count_csv_body c (r : list Z) :
  isspace c = true → c ≠ TAB →
  count c (String.concat (String TAB EmptyString) (pretty <$> r)) = 0%nat.
Proof. intros. apply count_concat_tokens; [done..|]. apply Forall_token_pretty. Qed.

Lemma count_CR_to_csv df : count CR (to_csv df) = 0%nat.
Proof.
  induction df as [|r df IH]; [done|].
  rewrite to_csv_cons, csv_line_body, !count_app, IH.
  by rewrite count_csv_body.
Qed.

Lemma file_lines_to_csv df : file_lines (to_csv df) = csv_line <$> df.
Proof.
  induction df as [|r df IH]; [done|].
  rewrite to_csv_cons, csv_line_body, string_append_assoc.
  change (String LF EmptyString +:+ to_csv df) with (String LF (to_csv df)).
  rewrite file_lines_app by by apply count_csv_body.
  by rewrite IH.
Qed.

Lemma split_strip_csv_line r :
  split TAB (strip (csv_line r)) = if decide (r = []) then [EmptyString] else pretty <$> r.
Proof.
  case_decide as Hr; [by subst|].
  rewrite csv_line_body, strip_concat_tokens.
  - apply split_concat; [by destruct r|].
    apply tokens_no_sep; [done|apply Forall_token_pretty].
  - by destruct r.
  - apply Forall_token_pretty.
  - done.
Qed.

Lemma csv_line_inj r1 r2 : csv_line r1 = csv_line r2 → r1 = r2.
Proof.
  intros Heq.
  pose proof (split_strip_csv_line r1) as H1.
  pose proof (split_strip_csv_line r2) as H2.
  rewrite Heq, H2 in H1. clear H2 Heq.
  destruct r1 as [|z1 r1], r2 as [|z2 r2]; [done|..].
  - rewrite decide_False, decide_True in H1 by done.
    injection H1 as H1 _. by destruct (pretty_Z_token z2) as [Hne _].
  - rewrite decide_True, decide_False in H1 by done.
    injection H1 as H1 _. by destruct (pretty_Z_token z1) as [Hne _].
  - rewrite !decide_False in H1 by done.
    symmetry. revert H1. apply (inj (fmap pretty)).
Qed.

Lemma to_csv_eq_inv df1 df2 : to_csv df1 = to_csv df2 → df1 = df2.
Proof.
  intros Heq. apply (f_equal file_lines) in Heq.
  rewrite !file_lines_to_csv in Heq. revert df2 Heq.
  induction df1 as [|r1 df1 IH]; intros [|r2 df2]; try done.
  rewrite !fmap_cons. intros [= Hr Hdf].
  f_equal; [by apply csv_line_inj|by apply IH].
Qed.

(** The lines and the fields of a text that [to_csv] wrote *)
Lemma split_LF_to_csv df :
  split LF (to_csv df)
  = ((λ r, String.concat (String TAB EmptyString) (pretty <$> r)) <$> df)
    ++ [EmptyString].
Proof.
  induction df as [|r df IH]; [done|].
  rewrite to_csv_cons, csv_line_body, string_append_assoc.
  change (String LF EmptyString +:+ to_csv df) with (String LF (to_csv df)).
  rewrite split_app by by apply count_csv_body.
  by rewrite IH.
Qed.

Lemma text_lines_to_csv df :
  text_lines (to_csv df)
  = (λ r, String.concat (String TAB EmptyString) (pretty <$> r)) <$> df.
Proof. unfold text_lines. by rewrite split_LF_to_csv, removelast_last. Qed.

Lemma tsv_rows_to_csv (df : list (list Z)) :
  Forall (λ r, r ≠ []) df →
  tsv_rows (to_csv df) = (λ r : list Z, pretty <$> r) <$> df.
Proof.
  intros Hdf. unfold tsv_rows.
  rewrite text_lines_to_csv, <-list_fmap_compose.
  apply list_fmap_ext. intros k r Hr. simpl.
  apply split_concat.
  - pose proof (Forall_lookup_1 _ _ _ _ Hdf Hr) as Hne. by destruct r.
  - apply tokens_no_sep; [done|apply Forall_token_pretty].
Qed.

Lemma tsv_rows_with_fake_rating pairs :
  tsv_rows (to_csv (with_fake_rating <$> pairs))
  = (λ p, [pretty p.1; pretty p.2; "1"]) <$> pairs.
Proof.
  rewrite tsv_rows_to_csv, <-list_fmap_compose; [done|].
  apply Forall_fmap, Forall_forall. by intros p _.
Qed.

End EvalNcfFacts.

(** ** The turn of a user in the sampler, and the rows that are written *)

Section Turns.
Context `{Libraries}.






(** From the sort to the end of the loop, case by case. *)
Lemma split_spec negatives df rm a :
  remap_of df rm →
  split negatives rm a =
    match loop_error negatives
            (pool (catalogue rm) (lists_before rm) <$> user_indices rm) with
    | Some e => Err e
    | None =>
        Ok (loop_result (Z.to_nat negatives) (catalogue rm) (lists_before rm)
              (user_indices rm) (state_before rm) a)
    end.
Proof.
  intros Hof. unfold split.
  by erewrite for_users_spec; [|by apply (loop_ready_before _ _ Hof)].
Qed.

Lemma test_pairs_in_ratings_set df rm :
  remap_of df rm →
  list_to_set (test_pair (lists_before rm) <$> user_indices rm)
    ⊆ ratings_set (remapped_df rm).
Proof.
  intros Hof p [u [-> Hu%elem_of_seqZ]]%elem_of_list_to_set%list_elem_of_fmap.
  destruct (held_out_row _ _ u Hof) as (r & _ & Hitem & Hr & Hur & _); [lia|].
  apply elem_of_ratings_set. exists r. split; [done|].
  unfold pair_of, test_pair. by rewrite Hur, Hitem.
Qed.

Lemma NoDup_test_pairs d0 users :
  NoDup users → NoDup (test_pair d0 <$> users).
Proof.
  intros Hnd. apply NoDup_fmap_2_strong; [|done].
  by intros u u' _ _ [= ->].
Qed.

(** The items of the list of [u] before the loop are the items paired
    with [u]. *)
Lemma elem_of_lists_before rm u i :
  i ∈ items_of (lists_before rm) u ↔ (u, i) ∈ ratings_set (remapped_df rm).
Proof.
  rewrite items_of_lists_before, list_elem_of_fmap, elem_of_ratings_set.
  split.
  - intros (r & -> & Hr). rewrite group_sorted_df in Hr.
    apply elem_of_group in Hr as [Hr <-]. by exists r.
  - intros (r & Hr & [= <- <-]). exists r. split; [done|].
    rewrite group_sorted_df. by apply elem_of_group.
Qed.

(** The number of pairs that are left in the set of ratings. *)
Lemma run_size_all_ratings seed negatives ratings rm st g :
  run_ok seed negatives ratings rm st g →
  (size (all_ratings st) + length (original_users rm)
   = size (ratings_set (remapped_df rm)))%nat ∧
  (NoDup (pair_of <$> ratings) →
   (size (all_ratings st) + length (original_users rm)
    = length (filter_min_ratings ratings))%nat).
Proof.
  intros Hok.
  pose proof (run_length_tests _ _ _ _ _ _ Hok) as Hlen.
  destruct Hok as [Hne Hof Hpos Hpools Hlists Hratings Htests Hnegs].
  pose proof (test_pairs_in_ratings_set _ _ Hof) as Hsub.
  rewrite <-Htests in Hsub.
  assert (size (list_to_set (C:=gset (Z * Z)) (test_ratings st))
          = length (original_users rm)) as Hsize.
  { rewrite size_list_to_set, Hlen; [done|].
    rewrite Htests. apply NoDup_test_pairs, NoDup_seqZ. }
  assert (size (all_ratings st) + length (original_users rm)
          = size (ratings_set (remapped_df rm)))%nat as Hcount.
  { rewrite Hratings, size_difference by done.
    apply subseteq_size in Hsub. lia. }
  split; [done|]. intros Hnd. rewrite Hcount.
  pose proof Hof as (_ & _ & HF). rewrite (Forall2_length _ _ _ HF).
  unfold ratings_set. rewrite size_list_to_set, length_fmap; [done|].
  apply remap_of_NoDup with (df := filter_min_ratings ratings);
    [done|by apply NoDup_fmap_filter].
Qed.

End Turns.

(** * The claims *)






(** C3: after a run that ends well the number of negatives is not
    negative and the rows of negatives, with the state in which the
    generator is left, are what [sample_users] gives: starting from the
    generator seeded with the seed, for the user indices 0, 1, ... in
    this order, as many draws as there are negatives, each from the
    ascending sequence of the items of the catalogue that are not in the
    list left for the user, with replacement.  There is one row per user
    and every row has as many entries as there are negatives. *)
Theorem negatives_drawn_in_user_order `{Libraries} (seed negatives : Z)
    (ratings : DataFrame) (g0 : RandomState)
    (rm : remapped) (st : split_state) (g : RandomState) :
  pipeline seed negatives ratings g0 = Ok ((rm, st), g) →
  0 ≤ negatives ∧
  (test_negs st, g) =
    sample_users (Z.to_nat negatives)
      ((λ u, filter (λ i, i ∉ items_of (user_to_items st) u)
               (range (len (original_items rm))))
         <$> range (len (original_users rm)))
      (np_seed seed) ∧
  length (test_negs st) = length (original_users rm) ∧
  Forall (λ negs, len negs = negatives) (test_negs st).
Proof.
  intros Hrun.
  pose proof (pipeline_Ok _ _ _ _ _ _ _ Hrun) as Hok.
  pose proof (pools_after _ _ _ _ _ _ Hok) as Hpools.
  pose proof (run_length_negs _ _ _ _ _ _ Hok) as Hlen.
  pose proof Hok as [Hne Hof Hpos Hnonempty Hlists Hratings Htests Hsample].
  rewrite Hpools in Hsample.
  split_and!; [done..|].
  apply Forall_forall. intros negs [k Hk]%list_elem_of_lookup.
  rewrite <-(Nat2Z.id k) in Hk.
  by destruct (run_negs_lookup _ _ _ _ _ _ _ _ Hok (Nat2Z.is_nonneg k) Hk)
    as (_ & ? & _).
Qed.

Lemma negatives_drawn_in_user_order_witness :
  ∃ rm st g,
    @pipeline stable_libraries 0 3 example_ratings 0 = Ok ((rm, st), g) ∧
    test_negs st = [[23; 21; 25]; [4; 25; 2]] ∧
    (test_negs st, g) =
      @sample_users stable_libraries 3
        ((λ u, filter (λ i, i ∉ items_of (user_to_items st) u)
                 (range (len (original_items rm))))
           <$> range (len (original_users rm)))
        0 ∧
    length (test_negs st) = length (original_users rm) ∧
    Forall (λ negs, len negs = 3) (test_negs st).
Proof.
  destruct (@pipeline stable_libraries 0 3 example_ratings 0)
    as [[[rm st] g]|e] eqn:Hrun.
  - exists rm, st, g. split; [reflexivity|]. split.
    { vm_compute in Hrun. by injection Hrun as <- <- <-. }
    exact (proj2 (@negatives_drawn_in_user_order stable_libraries _ _ _ _ _ _ _
                    Hrun)).
  - vm_compute in Hrun. discriminate.
Defined.

(** C4: the contents of the three files, and whether the run fails, are
    a function of the table, the seed and the number of negatives: the
    state in which the global generator happens to be when [main] starts
    does not reach the result, because line 50 seeds it before anything
    is drawn. *)
Theorem main_deterministic `{Libraries} (seed negatives : Z)
    (ratings : DataFrame) (g0 g0' : RandomState) :
  main seed negatives ratings g0 = main seed negatives ratings g0'.
Proof.
  unfold main, mbind, M_mbind, bind.
  assert (pipeline seed negatives ratings g0
          = pipeline seed negatives ratings g0') as ->; [|done].
  unfold pipeline, mbind, M_mbind, bind, np_random_seed. done.
Qed.

(** C5: on a non-empty filtered table the remapping succeeds, that is,
    neither assertion fires: the greatest user index is the number of
    distinct users less one, the greatest item index is the number of
    distinct items less one, and the indices that occur are exactly
    0, 1, ..., up to these bounds. *)
Theorem remap_ids_dense (ratings : DataFrame) :
  filter_min_ratings ratings ≠ [] →
  ∃ rm,
    remap_ids (filter_min_ratings ratings) = Ok rm ∧
    original_users rm = unique (user_id <$> filter_min_ratings ratings) ∧
    original_items rm = unique (item_id <$> filter_min_ratings ratings) ∧
    series_max (user_id <$> remapped_df rm) = Some (len (original_users rm) - 1) ∧
    series_max (item_id <$> remapped_df rm) = Some (len (original_items rm) - 1) ∧
    (∀ u, u ∈ user_id <$> remapped_df rm ↔ 0 ≤ u < len (original_users rm)) ∧
    (∀ i, i ∈ item_id <$> remapped_df rm ↔ 0 ≤ i < len (original_items rm)).
Proof.
  intros Hne. destruct (remap_ids_Ok _ Hne) as (df' & Hrm & HF).
  eexists. split; [exact Hrm|]. simpl.
  assert (Forall2 (λ r r', 0 ≤ user_id r' ∧
            unique (user_id <$> filter_min_ratings ratings)
              !! Z.to_nat (user_id r') = Some (user_id r))
            (filter_min_ratings ratings) df') as HFu.
  { eapply Forall2_impl; [exact HF|]. by intros r r' [? _]. }
  assert (Forall2 (λ r r', 0 ≤ item_id r' ∧
            unique (item_id <$> filter_min_ratings ratings)
              !! Z.to_nat (item_id r') = Some (item_id r))
            (filter_min_ratings ratings) df') as HFi.
  { eapply Forall2_impl; [exact HF|]. by intros r r' (_ & ? & _). }
  split_and!; [done|done| | | |].
  - by apply (series_max_dense user_id user_id).
  - by apply (series_max_dense item_id item_id).
  - intros u. by apply (dense_column user_id user_id).
  - intros i. by apply (dense_column item_id item_id).
Qed.

Lemma remap_ids_dense_witness :
  filter_min_ratings example_ratings ≠ [] ∧
  ∃ rm,
    remap_ids (filter_min_ratings example_ratings) = Ok rm ∧
    original_users rm = unique (user_id <$> filter_min_ratings example_ratings) ∧
    original_items rm = unique (item_id <$> filter_min_ratings example_ratings) ∧
    series_max (user_id <$> remapped_df rm) = Some (len (original_users rm) - 1) ∧
    series_max (item_id <$> remapped_df rm) = Some (len (original_items rm) - 1) ∧
    (∀ u, u ∈ user_id <$> remapped_df rm ↔ 0 ≤ u < len (original_users rm)) ∧
    (∀ i, i ∈ item_id <$> remapped_df rm ↔ 0 ≤ i < len (original_items rm)).
Proof.
  assert (filter_min_ratings example_ratings ≠ []) as Hne.
  { vm_compute. discriminate. }
  split; [exact Hne|]. exact (remap_ids_dense example_ratings Hne).
Defined.

(** C6, as amended: the table from which the lists of items are built
    holds the rows of the remapped table in ascending order of timestamp;
    a row with a smaller timestamp comes before a row with a greater one.
    Nothing is said on rows with equal timestamps.  The test item of a
    user is the item of one of the rows of the user that no row of the
    user is later than; a user whose latest row is later than all its
    other rows gets the item of that row. *)
Theorem sorted_by_timestamp `{Libraries} (seed negatives : Z)
    (ratings : DataFrame) (g0 : RandomState)
    (rm : remapped) (st : split_state) (g : RandomState) :
  pipeline seed negatives ratings g0 = Ok ((rm, st), g) →
  sorted_df rm ≡ₚ remapped_df rm ∧
  Sorted by_timestamp (sorted_df rm) ∧
  (∀ i j a b,
     sorted_df rm !! i = Some a → sorted_df rm !! j = Some b →
     timestamp a < timestamp b → (i < j)%nat) ∧
  (∀ u, items_of (lists_before rm) u = item_id <$> group (sorted_df rm) u) ∧
  (∀ u, 0 ≤ u < len (original_users rm) →
     ∃ r, r ∈ remapped_df rm ∧ user_id r = u ∧
          (∀ r', r' ∈ remapped_df rm → user_id r' = u →
                 timestamp r' ≤ timestamp r) ∧
          test_ratings st !! Z.to_nat u = Some (u, item_id r)) ∧
  (∀ r, r ∈ remapped_df rm →
     (∀ r', r' ∈ remapped_df rm → user_id r' = user_id r →
            timestamp r' < timestamp r ∨ r' = r) →
     test_ratings st !! Z.to_nat (user_id r) = Some (user_id r, item_id r)).
Proof.
  intros [Hne Hof Hpos Hpools Hlists Hratings Htests Hnegs]%pipeline_Ok.
  split_and!.
  - apply sort_values_perm.
  - apply sort_values_sorted.
  - intros i j a b Hi Hj Hlt.
    destruct (decide (i < j)%nat) as [|Hge]; [done|].
    assert (i ≠ j) by (intros ->; simplify_eq; lia).
    assert (by_timestamp b a); [|unfold by_timestamp in *; lia].
    apply (StronglySorted_lookup by_timestamp (sorted_df rm) j i); [|lia|done..].
    apply Sorted_StronglySorted; [apply _|]. apply sort_values_sorted.
  - apply items_of_lists_before.
  - intros u Hu.
    destruct (held_out_row _ _ _ Hof Hu) as (r & _ & Hitem & Hr & Hur & Hmax).
    exists r. split_and!; [done..|].
    rewrite Htests, (test_pair_lookup _ _ _ Hu). unfold test_pair.
    by rewrite Hitem.
  - intros r Hr Hlast.
    destruct (remapped_user_range _ _ _ Hof Hr) as [Hu _].
    destruct (held_out_row _ _ _ Hof Hu) as (r' & _ & Hitem & Hr' & Hur' & Hmax).
    rewrite Htests, (test_pair_lookup _ _ _ Hu). unfold test_pair.
    do 3 f_equal. rewrite <-Hitem.
    destruct (Hlast r' Hr' Hur') as [Hlt| ->]; [|done].
    specialize (Hmax r Hr eq_refl). lia.
Qed.

Lemma sorted_by_timestamp_witness :
  ∃ rm st g,
    @pipeline stable_libraries 0 3 example_ratings 0 = Ok ((rm, st), g) ∧
    Sorted by_timestamp (@sorted_df stable_libraries rm) ∧
    Row 0 0 50 ∈ remapped_df rm ∧
    test_ratings st !! Z.to_nat 0 = Some (0, 0).
Proof.
  destruct (@pipeline stable_libraries 0 3 example_ratings 0)
    as [[[rm st] g]|e] eqn:Hrun.
  - exists rm, st, g. split; [reflexivity|].
    destruct (@sorted_by_timestamp stable_libraries _ _ _ _ _ _ _ Hrun)
      as (_ & Hsorted & _ & _ & _ & Hlast).
    split; [exact Hsorted|].
    assert (Row 0 0 50 ∈ remapped_df rm) as Hr.
    { vm_compute in Hrun. injection Hrun as <- _ _. left. }
    split; [exact Hr|].
    apply (Hlast (Row 0 0 50) Hr).
    intros r' Hr' Hu'.
    assert (Forall (λ r', user_id r' = 0 → timestamp r' < 50 ∨ r' = Row 0 0 50)
              (remapped_df rm)) as Hall.
    { vm_compute in Hrun. injection Hrun as <- _ _.
      repeat (constructor; [simpl; intros ?; first [by right | left; lia | done]|]).
      constructor. }
    rewrite Forall_forall in Hall. by apply Hall.
  - vm_compute in Hrun. discriminate.
Defined.

(** C6, the claim as written fails: [sort_reversed] returns the rows in
    ascending order of timestamp, as [sort_values] must.  The rows 0 and
    1 of the table are rows of the same user with the same timestamp,
    the greatest of the table; after the sort they stand in the other
    order, and the test item of the user is the item of row 0, the
    earlier of the two.  With the stable sort it is the item of row 1. *)
Lemma ties_need_not_keep_row_order :
  ∃ rm st g,
    @pipeline reversing_libraries 0 3 tied_ratings 0 = Ok ((rm, st), g) ∧
    remapped_df rm !! 0%nat = Some (Row 0 0 100) ∧
    remapped_df rm !! 1%nat = Some (Row 0 1 100) ∧
    @sorted_df reversing_libraries rm !! 18%nat = Some (Row 0 1 100) ∧
    @sorted_df reversing_libraries rm !! 19%nat = Some (Row 0 0 100) ∧
    test_ratings st = [(0, 0)] ∧
    ∃ st' g',
      @pipeline stable_libraries 0 3 tied_ratings 0 = Ok ((rm, st'), g') ∧
      test_ratings st' = [(0, 1)].
Proof.
  destruct (@pipeline reversing_libraries 0 3 tied_ratings 0)
    as [[[rm st] g]|e] eqn:Hrun; [|vm_compute in Hrun; discriminate].
  exists rm, st, g. split; [reflexivity|].
  vm_compute in Hrun. injection Hrun as <- <- <-.
  split_and!; [reflexivity..|].
  destruct (@pipeline stable_libraries 0 3 tied_ratings 0)
    as [[[rm' st'] g']|e] eqn:Hrun'; [|vm_compute in Hrun'; discriminate].
  vm_compute in Hrun'. injection Hrun' as <- <- <-.
  eexists _, _. split; reflexivity.
Qed.

(** C7: when no row passes the filter [main] writes no file.  Line 50
    comes before the filter: on a seed that [np.random.seed] takes the
    run reaches the filter and then ends in the [AssertionError] of the
    first assertion, because the greatest index of an empty column is no
    number and so differs from [len(original_users) - 1]; on any other
    seed the run has ended in the [ValueError] of line 50. *)
Theorem empty_table_fails `{Libraries} (seed negatives : Z)
    (ratings : DataFrame) (g0 : RandomState) :
  filter_min_ratings ratings = [] →
  (∀ r, main seed negatives ratings g0 ≠ Ok r) ∧
  (0 ≤ seed < 2 ^ 32 →
   remap_ids (filter_min_ratings ratings) = Err AssertionError ∧
   main seed negatives ratings g0 = Err AssertionError) ∧
  (¬ (0 ≤ seed < 2 ^ 32) →
   main seed negatives ratings g0 = Err ValueError).
Proof.
  intros Hnil.
  assert (0 ≤ seed < 2 ^ 32 →
          main seed negatives ratings g0 = Err AssertionError) as Hassert.
  { intros Hseed. apply main_Err. by apply pipeline_empty. }
  assert (¬ (0 ≤ seed < 2 ^ 32) →
          main seed negatives ratings g0 = Err ValueError) as Hvalue.
  { intros Hseed. apply main_Err. by apply pipeline_seed. }
  split_and!.
  - intros r Hr.
    destruct (decide (0 ≤ seed < 2 ^ 32)) as [Hseed|Hseed].
    + by rewrite Hassert in Hr.
    + by rewrite Hvalue in Hr.
  - intros Hseed. split; [|by apply Hassert].
    rewrite Hnil. apply remap_ids_nil.
  - done.
Qed.

Lemma empty_table_fails_witness :
  filter_min_ratings sparse_ratings = [] ∧
  @main stable_libraries 0 999 sparse_ratings 0 = Err AssertionError ∧
  @main stable_libraries (-1) 999 sparse_ratings 0 = Err ValueError.
Proof.
  assert (filter_min_ratings sparse_ratings = []) as Hnil by reflexivity.
  split; [exact Hnil|].
  destruct (@empty_table_fails stable_libraries 0 999 sparse_ratings 0 Hnil)
    as (_ & Hassert & _).
  destruct (@empty_table_fails stable_libraries (-1) 999 sparse_ratings 0 Hnil)
    as (_ & _ & Hvalue).
  split; [apply Hassert; lia|apply Hvalue; lia].
Defined.

(** C8: after a run that ends well the users that were given an index
    are, without repetition, the raw users with at least [MIN_RATINGS]
    rows.  Every row of the training and of the test table carries the
    index of such a user, and the [k]-th row of negatives belongs to the
    [k]-th of them; there is one test row and one row of negatives for
    each.  A raw user with fewer rows has no index, so no row of any of
    the three tables refers to it. *)
Theorem sparse_users_absent `{Libraries} (seed negatives : Z)
    (ratings : DataFrame) (g0 : RandomState)
    (rm : remapped) (st : split_state) (g : RandomState) :
  pipeline seed negatives ratings g0 = Ok ((rm, st), g) →
  NoDup (original_users rm) ∧
  (∀ uid, uid ∈ original_users rm ↔ MIN_RATINGS ≤ len (group ratings uid)) ∧
  (∀ uid, len (group ratings uid) < MIN_RATINGS →
     ∀ u, original_users rm !! u ≠ Some uid) ∧
  (∀ row, row ∈ df_train_ratings (save st) ++ df_test_ratings (save st) →
     ∃ u i uid,
       row = [u; i; 1] ∧ 0 ≤ u ∧
       original_users rm !! Z.to_nat u = Some uid ∧
       MIN_RATINGS ≤ len (group ratings uid)) ∧
  (∀ k negs, df_test_negs (save st) !! k = Some negs →
     ∃ uid, original_users rm !! k = Some uid ∧
            MIN_RATINGS ≤ len (group ratings uid)) ∧
  length (df_test_ratings (save st)) = length (original_users rm) ∧
  length (df_test_negs (save st)) = length (original_users rm).
Proof.
  intros Hok%pipeline_Ok.
  pose proof (run_length_negs _ _ _ _ _ _ Hok) as Hlen_negs.
  pose proof (run_length_tests _ _ _ _ _ _ Hok) as Hlen_tests.
  destruct Hok as [Hne Hof Hpos Hnonempty Hlists Hratings Htests Hsample].
  assert (∀ u, 0 ≤ u < len (original_users rm) →
            ∃ uid, original_users rm !! Z.to_nat u = Some uid ∧
                   MIN_RATINGS ≤ len (group ratings uid)) as Hindex.
  { intros u Hu.
    destruct (lookup_lt_is_Some_2 (original_users rm) (Z.to_nat u)) as [uid Huid].
    { unfold len in Hu. lia. }
    exists uid. split; [done|].
    by destruct (retained_user_count _ _ _ _ Hof Huid). }
  split_and!.
  - destruct Hof as (-> & _). apply NoDup_unique.
  - intros uid. by apply retained_users.
  - intros uid Hlt u Hu.
    assert (MIN_RATINGS ≤ len (group ratings uid)); [|lia].
    apply (retained_users _ rm); [done|]. by eapply list_elem_of_lookup_2.
  - intros row [Hrow|Hrow]%elem_of_app.
    + apply elem_of_df_train_ratings in Hrow as (u & i & -> & Hp).
      rewrite Hratings in Hp. apply elem_of_difference in Hp as [Hp _].
      apply elem_of_ratings_set in Hp as (r & Hr & [= <- <-]).
      destruct (remapped_user_range _ _ _ Hof Hr) as [Hu _].
      destruct (Hindex _ Hu) as (uid & ? & ?).
      exists (user_id r), (item_id r), uid. split_and!; [done|lia|done..].
    + unfold save in Hrow. simpl in Hrow. rewrite Htests in Hrow.
      apply list_elem_of_fmap in Hrow as (p & -> & Hp).
      apply list_elem_of_fmap in Hp as (u & -> & Hu%elem_of_seqZ).
      destruct (Hindex u) as (uid & ? & ?); [lia|].
      exists u, (held_out (lists_before rm) u), uid.
      split_and!; [done|lia|done..].
  - intros k negs Hk. apply lookup_lt_Some in Hk.
    unfold save in Hk. simpl in Hk. rewrite Hlen_negs in Hk.
    destruct (Hindex (Z.of_nat k)) as (uid & Huid & ?).
    { unfold len. lia. }
    rewrite Nat2Z.id in Huid. eauto.
  - unfold save. simpl. by rewrite length_fmap.
  - done.
Qed.

Lemma sparse_users_absent_witness :
  ∃ rm st g,
    @pipeline stable_libraries 0 3 example_ratings 0 = Ok ((rm, st), g) ∧
    original_users rm = [7; 3] ∧
    len (group example_ratings 9) < MIN_RATINGS ∧
    (∀ u, original_users rm !! u ≠ Some 9) ∧
    (∀ row, row ∈ df_train_ratings (@save stable_libraries st)
                    ++ df_test_ratings (@save stable_libraries st) →
       ∃ u i uid,
         row = [u; i; 1] ∧ 0 ≤ u ∧
         original_users rm !! Z.to_nat u = Some uid ∧
         MIN_RATINGS ≤ len (group example_ratings uid)).
Proof.
  destruct (@pipeline stable_libraries 0 3 example_ratings 0)
    as [[[rm st] g]|e] eqn:Hrun.
  - exists rm, st, g. split; [reflexivity|].
    destruct (@sparse_users_absent stable_libraries _ _ _ _ _ _ _ Hrun)
      as (_ & _ & Hsparse & Hrows & _).
    assert (len (group example_ratings 9) < MIN_RATINGS) as Hlt by reflexivity.
    split.
    { vm_compute in Hrun. by injection Hrun as <- <- <-. }
    split; [exact Hlt|]. split; [exact (Hsparse 9 Hlt)|exact Hrows].
  - vm_compute in Hrun. discriminate.
Defined.

(** C9, as amended: whenever [main] ends well the three files are
    tab-separated texts without header line and without index column:
    every line ends in a line feed and is a row of decimal numerals
    separated by tabs.  The test file has the row [u, held-out item of
    u, 1] for each user index [u], in ascending order.  The training
    file has, without repetition, the row [u, i, 1] for each pair
    [(u, i)] of the remapped table that is not a test pair; they are as
    many as the distinct pairs of the table less one per user, which is
    one row for each rating that was not held out when no rating is
    repeated in the table.  The file of negatives has one line for each
    user index, and the line of a user consists of as many item indices
    as negatives were asked for: the negatives of the user, and nothing
    else. *)
Theorem outputs_shape `{Libraries} (seed negatives : Z) (ratings : DataFrame)
    (g0 : RandomState) (fs : files) (g : RandomState) :
  main seed negatives ratings g0 = Ok (fs, g) →
  ∃ rm st,
    pipeline seed negatives ratings g0 = Ok ((rm, st), g) ∧
    tsv_rows (test_ratings_file fs)
      = (λ u, [pretty u; pretty (held_out (lists_before rm) u); "1"])
          <$> range (len (original_users rm)) ∧
    NoDup (tsv_rows (train_ratings_file fs)) ∧
    (∀ row, row ∈ tsv_rows (train_ratings_file fs) ↔
            ∃ u i, row = [pretty u; pretty i; "1"] ∧
                   (u, i) ∈ ratings_set (remapped_df rm) ∧
                   (u, i) ∉ test_ratings st) ∧
    (length (tsv_rows (train_ratings_file fs)) + length (original_users rm)
     = size (ratings_set (remapped_df rm)))%nat ∧
    (NoDup (pair_of <$> ratings) →
     (length (tsv_rows (train_ratings_file fs)) + length (original_users rm)
      = length (filter_min_ratings ratings))%nat) ∧
    length (text_lines (test_negative_file fs)) = length (original_users rm) ∧
    length (test_negs st) = length (original_users rm) ∧
    Forall (λ negs, len negs = negatives ∧
                    Forall (λ x, 0 ≤ x < len (original_items rm)) negs)
      (test_negs st) ∧
    (0 < negatives →
     tsv_rows (test_negative_file fs)
     = (λ negs : list Z, pretty <$> negs) <$> test_negs st).
Proof.
  intros (rm & st & Hrun & ->)%main_Ok. exists rm, st.
  pose proof (pipeline_Ok _ _ _ _ _ _ _ Hrun) as Hok.
  pose proof (run_length_negs _ _ _ _ _ _ Hok) as Hlen_negs.
  pose proof (run_size_all_ratings _ _ _ _ _ _ Hok) as [Hsize Hsize_nd].
  assert (Forall (λ negs, len negs = negatives ∧
                    Forall (λ x, 0 ≤ x < len (original_items rm)) negs)
            (test_negs st)) as Hrows.
  { apply Forall_forall. intros negs [k Hk]%list_elem_of_lookup.
    rewrite <-(Nat2Z.id k) in Hk.
    destruct (run_negs_lookup _ _ _ _ _ _ _ _ Hok (Nat2Z.is_nonneg k) Hk)
      as (_ & Hlen & Hcand).
    split; [done|]. apply Forall_forall. intros x Hx.
    specialize (Hcand x Hx).
    apply list_elem_of_filter in Hcand as [_ Hcand].
    apply elem_of_seqZ in Hcand. lia. }
  destruct Hok as [Hne Hof Hpos Hnonempty Hlists Hratings Htests Hsample].
  unfold write, save.
  cbn [train_ratings_file test_ratings_file test_negative_file
       df_train_ratings df_test_ratings df_test_negs].
  rewrite !EvalNcfFacts.tsv_rows_with_fake_rating.
  assert (length ((λ p : Z * Z, [pretty p.1; pretty p.2; "1"])
                    <$> set_iter (all_ratings st))
          = size (all_ratings st)) as Htrain.
  { by rewrite length_fmap, set_iter_perm. }
  split_and!; [done| | | | | | |done|done|].
  - rewrite Htests, <-list_fmap_compose. done.
  - apply NoDup_fmap_2; [|apply NoDup_set_iter].
    intros [u i] [u' i'] [= Hu%(inj pretty) Hi%(inj pretty)]. simpl in *.
    by subst.
  - intros row. rewrite list_elem_of_fmap. split.
    + intros ([u i] & -> & Hp%elem_of_set_iter). exists u, i.
      rewrite Hratings in Hp. set_solver.
    + intros (u & i & -> & Hp & Hnot). exists (u, i). split; [done|].
      apply elem_of_set_iter. rewrite Hratings. set_solver.
  - by rewrite Htrain.
  - intros Hnd. rewrite Htrain. by apply Hsize_nd.
  - by rewrite EvalNcfFacts.text_lines_to_csv, length_fmap.
  - intros Hn. apply EvalNcfFacts.tsv_rows_to_csv.
    eapply Forall_impl; [exact Hrows|].
    intros negs [Hlen _] ->. unfold len in Hlen. simpl in Hlen. lia.
Qed.

Lemma outputs_shape_witness :
  ∃ fs g rm st,
    @main stable_libraries 0 3 example_ratings 0 = Ok (fs, g) ∧
    @pipeline stable_libraries 0 3 example_ratings 0 = Ok ((rm, st), g) ∧
    tsv_rows (test_ratings_file fs) = [["0"; "0"; "1"]; ["1"; "25"; "1"]] ∧
    tsv_rows (test_negative_file fs)
      = [["23"; "21"; "25"]; ["4"; "25"; "2"]] ∧
    NoDup (tsv_rows (train_ratings_file fs)) ∧
    length (text_lines (test_negative_file fs)) = length (original_users rm).
Proof.
  destruct (@main stable_libraries 0 3 example_ratings 0)
    as [[fs g]|e] eqn:Hmain.
  - destruct (@outputs_shape stable_libraries 0 3 example_ratings 0 fs g Hmain)
      as (rm & st & Hrun & _ & Hnd & _ & _ & _ & Hlen & _).
    exists fs, g, rm, st. split; [reflexivity|]. split; [exact Hrun|].
    split.
    { vm_compute in Hmain. injection Hmain as <- _. vm_compute. reflexivity. }
    split.
    { vm_compute in Hmain. injection Hmain as <- _. vm_compute. reflexivity. }
    split; [exact Hnd|exact Hlen].
  - vm_compute in Hmain. discriminate.
Defined.

(** C9, the claim as written fails: the first user of the table rates
    item 100 twice and the later of the two ratings is held out.  The
    set of pairs holds the pair once, and the pair is removed as the
    test pair: of the thirty-eight ratings that are not held out (the
    lists left for the two users hold nineteen items each) the training
    file has thirty-seven, and no row for the first rating of item 100,
    which is still in the list of the user. *)
Lemma train_file_misses_a_repeated_rating :
  ∃ fs g rm st,
    @main stable_libraries 0 3 rated_twice_ratings 0 = Ok (fs, g) ∧
    @pipeline stable_libraries 0 3 rated_twice_ratings 0 = Ok ((rm, st), g) ∧
    length (filter_min_ratings rated_twice_ratings) = 40%nat ∧
    length (original_users rm) = 2%nat ∧
    length (items_of (user_to_items st) 0) = 19%nat ∧
    length (items_of (user_to_items st) 1) = 19%nat ∧
    length (tsv_rows (train_ratings_file fs)) = 37%nat ∧
    0 ∈ items_of (user_to_items st) 0 ∧
    ["0"; "0"; "1"] ∉ tsv_rows (train_ratings_file fs).
Proof.
  destruct (@main stable_libraries 0 3 rated_twice_ratings 0)
    as [[fs g]|e] eqn:Hmain.
  - pose proof Hmain as (rm & st & Hrun & _)%main_Ok.
    exists fs, g, rm, st. split; [reflexivity|]. split; [exact Hrun|].
    vm_compute in Hmain. injection Hmain as <- _.
    vm_compute in Hrun. injection Hrun as <- <- _.
    split; [reflexivity|]. split; [reflexivity|].
    split; [reflexivity|]. split; [reflexivity|].
    split; [vm_compute; reflexivity|].
    split; [apply (bool_decide_unpack _); vm_compute; exact I|].
    apply (bool_decide_unpack _). vm_compute. exact I.
  - vm_compute in Hmain. discriminate.
Qed.

(** C10, as amended: on a non-empty filtered table the remapping
    succeeds and, whenever the loop reaches the turn of a user index [u]
    below the number of users, the list of [u] holds at least
    [MIN_RATINGS] items and its last item is still paired with [u] in the
    set, so that neither [pop] nor [remove] raises (the turn of [u] in
    the loop of [split] begins in the state that the turns of [range u]
    leave, see [for_users_app] and [range_split]).  From the sort to the
    end of the loop the run therefore never ends in [IndexError] or
    [KeyError], whatever the state of the generator: it ends in an
    exception of [np.random.choice] or it ends well, and it ends well
    exactly when [np.random.choice] delivers the number of negatives
    that is asked for and, unless that number is zero, no user has an
    empty pool of candidates. *)
Theorem split_loop_invariant `{Libraries} (negatives : Z)
    (ratings : DataFrame) :
  filter_min_ratings ratings ≠ [] →
  ∃ rm,
    remap_ids (filter_min_ratings ratings) = Ok rm ∧
    (∀ u st g a,
       0 ≤ u < len (original_users rm) →
       for_users negatives (catalogue rm) (range u) (state_before rm) a
         = Ok (st, g) →
       MIN_RATINGS ≤ len (items_of (user_to_items st) u) ∧
       ∃ test_item hist rest,
         pop (items_of (user_to_items st) u) = Ok (test_item, hist) ∧
         set_remove (all_ratings st) (u, test_item) = Ok rest) ∧
    ∀ a,
      split negatives rm a ≠ Err IndexError ∧
      split negatives rm a ≠ Err KeyError ∧
      (∀ e, split negatives rm a = Err e → library_error e) ∧
      ((∃ r, split negatives rm a = Ok r) ↔
       np_size_error negatives = None ∧
       (negatives = 0 ∨
        Forall (λ u, pool (catalogue rm) (lists_before rm) u ≠ [])
          (user_indices rm))).
Proof.
  intros Hne.
  destruct (remap_ids_Ok _ Hne) as (df' & Hrm & _).
  eexists. split; [exact Hrm|].
  set (rm := Remapped _ _ df') in *.
  pose proof (remap_ids_inv _ _ Hrm) as [_ Hof].
  split.
  - intros u st g a Hu Hrun.
    destruct (turn_invariant _ _ _ _ _ _ _ Hof Hu Hrun) as (Hitems & Hlen & Hin).
    split; [done|].
    destruct (items_of (user_to_items st) u) as [|x l] eqn:Hl.
    { unfold len, MIN_RATINGS in Hlen. simpl in Hlen. lia. }
    destruct (pop_cons x l) as (ti & hist & Hpop).
    exists ti, hist, (all_ratings st ∖ {[(u, ti)]}). split; [done|].
    unfold set_remove. rewrite decide_True; [done|].
    unfold test_pair, held_out in Hin. rewrite <-Hitems in Hin.
    unfold pop in Hpop. destruct (last (x :: l)); [|done].
    by injection Hpop as -> _.
  - intros a. rewrite (split_spec _ _ _ a Hof).
    assert (∀ e,
      match loop_error negatives
              (pool (catalogue rm) (lists_before rm) <$> user_indices rm) with
      | Some e' => Err e'
      | None =>
          Ok (loop_result (Z.to_nat negatives) (catalogue rm) (lists_before rm)
                (user_indices rm) (state_before rm) a)
      end = Err e → library_error e) as Hlib.
    { intros e. destruct (loop_error _ _) as [e'|] eqn:Herr; [|done].
      intros [= <-]. by eapply loop_error_Some. }
    split_and!.
    + intros [?|[?|?]]%Hlib; discriminate.
    + intros [?|[?|?]]%Hlib; discriminate.
    + done.
    + destruct (loop_error _ _) as [e'|] eqn:Herr.
      * split; [by intros [? ?]|]. intros [Hsize Hpools].
        assert (loop_error negatives
                  (pool (catalogue rm) (lists_before rm) <$> user_indices rm)
                = None) as Hnone; [|congruence].
        apply loop_error_None. right. split; [done|].
        destruct Hpools as [?|Hpools]; [by left|right].
        apply Forall_forall.
        intros p (u & -> & Hu)%list_elem_of_fmap.
        rewrite Forall_forall in Hpools. by apply Hpools.
      * split; [|eauto]. intros _.
        apply loop_error_None in Herr as [Hnil|[Hsize Hpools]].
        { apply fmap_nil_inv in Hnil.
          by destruct (user_indices_nonempty _ _ Hne Hof). }
        split; [done|]. destruct Hpools as [?|Hpools]; [by left|right].
        rewrite Forall_forall in Hpools. apply Forall_forall.
        intros u Hu. apply Hpools, list_elem_of_fmap. eauto.
Qed.

Lemma split_loop_invariant_witness :
  filter_min_ratings example_ratings ≠ [] ∧
  ∃ rm,
    remap_ids (filter_min_ratings example_ratings) = Ok rm ∧
    @split stable_libraries 3 rm 0 ≠ Err IndexError ∧
    @split stable_libraries 3 rm 0 ≠ Err KeyError ∧
    ∃ r, @split stable_libraries 3 rm 0 = Ok r.
Proof.
  assert (filter_min_ratings example_ratings ≠ []) as Hne.
  { vm_compute. discriminate. }
  split; [exact Hne|].
  destruct (@split_loop_invariant stable_libraries 3 example_ratings Hne)
    as (rm & Hrm & _ & Hloop).
  exists rm. split; [exact Hrm|].
  destruct (Hloop 0) as (Hindex & Hkey & _ & Htotal).
  split; [exact Hindex|]. split; [exact Hkey|].
  apply Htotal. split; [reflexivity|]. right.
  assert (Ok rm = remap_ids (filter_min_ratings example_ratings)) as Heq
    by (symmetry; exact Hrm).
  vm_compute in Heq. injection Heq as ->.
  apply (bool_decide_unpack _). vm_compute. exact I.
Defined.

(** C10, the claim as written fails: a table that passes the filter and is
    remapped without error, on which the loop raises.  The one user rated
    the one item of the catalogue twenty times; after the pop the item
    is still in the history, the pool of candidates is empty and
    [np.random.choice] raises [ValueError]. *)
Lemma loop_raises_on_empty_pool :
  filter_min_ratings repeated_ratings = repeated_ratings ∧
  remap_ids repeated_ratings
    = Ok (Remapped [7] [100] ((λ i, Row 0 0 i) <$> seqZ 0 20)) ∧
  @split stable_libraries 3 (Remapped [7] [100] ((λ i, Row 0 0 i) <$> seqZ 0 20)) 0
    = Err ValueError ∧
  @main stable_libraries 0 3 repeated_ratings 0 = Err ValueError.
Proof. split_and!; reflexivity. Qed.

(** * Further properties *)

(** ** The filter on whole groups *)

Lemma filter_all {A} (P : A → Prop) `{!∀ x, Decision (P x)} (l : list A) :
  (∀ x, x ∈ l → P x) → filter P l = l.
Proof.
  induction l as [|x l IH]; intros Hl; [done|].
  rewrite filter_cons_True by (apply Hl; left).
  f_equal. apply IH. intros y Hy. apply Hl. by right.
Qed.

(** X1: the filter keeps the rows in their order, keeps or drops the rows
    of a user all together, and applying it a second time changes
    nothing. *)
Theorem filter_min_ratings_groups (df : DataFrame) :
  filter_min_ratings df `sublist_of` df ∧
  (∀ u, group (filter_min_ratings df) u =
        if decide (MIN_RATINGS ≤ len (group df u)) then group df u else []) ∧
  filter_min_ratings (filter_min_ratings df) = filter_min_ratings df.
Proof.
  split_and!.
  - apply sublist_filter.
  - apply group_filter_min_ratings.
  - unfold filter_min_ratings at 1. apply filter_all.
    intros r [_ Hr]%elem_of_filter_min_ratings.
    rewrite group_filter_min_ratings. by rewrite decide_True.
Qed.

(** ** Decoding the remapped table *)

Lemma original_row_remap_row rm r r' :
  remap_row (original_users rm) (original_items rm) r r' →
  original_row rm r' = Some r.
Proof.
  intros ([Hu Hlu] & [Hi Hli] & Ht). unfold original_row.
  rewrite decide_True by done. rewrite Hlu, Hli. simpl.
  destruct r. simpl in *. by rewrite Ht.
Qed.

(** X2: the remapping can be undone: reading each index of a remapped row
    back in [original_users] and [original_items] gives the row it came
    from, so the remapped table has the rows of the table it was made
    from, in the same order and with the same timestamps, and two rows
    get the same user (item) index only if they had the same raw user
    (item). *)
Theorem remap_ids_round_trip (df : DataFrame) (rm : remapped) :
  remap_ids df = Ok rm →
  original_row rm <$> remapped_df rm = Some <$> df ∧
  timestamp <$> remapped_df rm = timestamp <$> df ∧
  ∀ k j r1 r2 r1' r2',
    df !! k = Some r1 → df !! j = Some r2 →
    remapped_df rm !! k = Some r1' → remapped_df rm !! j = Some r2' →
    (user_id r1' = user_id r2' ↔ user_id r1 = user_id r2) ∧
    (item_id r1' = item_id r2' ↔ item_id r1 = item_id r2).
Proof.
  intros [_ (Hu & Hi & HF)]%remap_ids_inv.
  assert (NoDup (original_users rm)) as Hndu by (rewrite Hu; apply NoDup_unique).
  assert (NoDup (original_items rm)) as Hndi by (rewrite Hi; apply NoDup_unique).
  split_and!.
  - apply list_eq. intros k. rewrite !list_lookup_fmap.
    destruct (df !! k) as [r|] eqn:Hr.
    + destruct (Forall2_lookup_l _ _ _ _ _ HF Hr) as (r' & -> & Hrr').
      simpl. f_equal. by apply original_row_remap_row.
    + apply lookup_ge_None in Hr. rewrite (Forall2_length _ _ _ HF) in Hr.
      apply lookup_ge_None in Hr. by rewrite Hr.
  - apply list_eq. intros k. rewrite !list_lookup_fmap.
    destruct (df !! k) as [r|] eqn:Hr.
    + destruct (Forall2_lookup_l _ _ _ _ _ HF Hr) as (r' & -> & _ & _ & Ht).
      simpl. by rewrite Ht.
    + apply lookup_ge_None in Hr. rewrite (Forall2_length _ _ _ HF) in Hr.
      apply lookup_ge_None in Hr. by rewrite Hr.
  - intros k j r1 r2 r1' r2' H1 H2 H1' H2'.
    destruct (Forall2_lookup_l _ _ _ _ _ HF H1) as (? & ? & [Hp1 Hl1] & [Hq1 Hm1] & _).
    destruct (Forall2_lookup_l _ _ _ _ _ HF H2) as (? & ? & [Hp2 Hl2] & [Hq2 Hm2] & _).
    simplify_eq. split; split.
    + intros Heq. rewrite Heq in Hl1. congruence.
    + intros Heq. rewrite Heq in Hl1.
      pose proof (NoDup_lookup _ _ _ _ Hndu Hl1 Hl2). lia.
    + intros Heq. rewrite Heq in Hm1. congruence.
    + intros Heq. rewrite Heq in Hm1.
      pose proof (NoDup_lookup _ _ _ _ Hndi Hm1 Hm2). lia.
Qed.

Lemma remap_ids_round_trip_witness :
  ∃ rm,
    remap_ids (filter_min_ratings example_ratings) = Ok rm ∧
    original_row rm <$> remapped_df rm
      = Some <$> filter_min_ratings example_ratings.
Proof.
  destruct (remap_ids (filter_min_ratings example_ratings)) as [rm|e] eqn:Hrm.
  - exists rm. split; [reflexivity|].
    exact (proj1 (remap_ids_round_trip _ rm Hrm)).
  - vm_compute in Hrm. discriminate.
Defined.

(** ** Indices in order of first appearance *)

Lemma unique_app l1 l2 :
  unique (l1 ++ l2) = unique l1 ++ filter (λ y, y ∉ l1) (unique l2).
Proof.
  induction l1 as [|x l1 IH]; simpl.
  { symmetry. apply filter_all. intros y _. apply not_elem_of_nil. }
  f_equal. rewrite IH, filter_app. f_equal.
  rewrite list_filter_filter. apply list_filter_iff.
  intros y. rewrite not_elem_of_cons. tauto.
Qed.

(** The values that [unique] lists before the value found at position [k]
    occur before position [k]. *)
Lemma unique_first_seen l k x p q y :
  l !! k = Some x → unique l !! p = Some x →
  (q < p)%nat → unique l !! q = Some y →
  ∃ j, (j < k)%nat ∧ l !! j = Some y.
Proof.
  intros Hk Hp Hqp Hq.
  pose proof (NoDup_unique l) as Hnd.
  rewrite <-(take_drop (S k) l) in Hp, Hq, Hnd.
  rewrite unique_app in Hp, Hq, Hnd.
  assert (x ∈ unique (take (S k) l)) as [p' Hp']%list_elem_of_lookup.
  { apply elem_of_unique. apply list_elem_of_lookup. exists k.
    rewrite lookup_take_lt by lia. done. }
  assert (p = p') as <-.
  { eapply NoDup_lookup; [exact Hnd|exact Hp|].
    by apply lookup_app_l_Some. }
  assert (unique (take (S k) l) !! q = Some y) as Hq'.
  { rewrite lookup_app_l in Hq; [done|].
    apply lookup_lt_Some in Hp'. lia. }
  assert (y ∈ take (S k) l) as [j Hj]%list_elem_of_lookup.
  { apply elem_of_unique. by eapply list_elem_of_lookup_2. }
  pose proof (lookup_lt_Some _ _ _ Hj) as Hlt. rewrite length_take in Hlt.
  rewrite lookup_take_lt in Hj by lia.
  exists j. split; [|done].
  destruct (decide (j = k)) as [->|]; [|lia].
  assert (x = y) as -> by congruence.
  pose proof (NoDup_lookup _ _ _ _ (NoDup_unique (take (S k) l)) Hp' Hq'). lia.
Qed.

(** X3: the indices are given out in the order in which the raw users and
    items first appear in the table: when a row carries a user (item)
    index, every smaller user (item) index is carried by an earlier row.
    The first row therefore carries the indices 0 and 0. *)
Theorem indices_in_order_of_first_appearance (df : DataFrame) (rm : remapped) :
  remap_ids df = Ok rm →
  ∀ k r', remapped_df rm !! k = Some r' →
    (∀ v, 0 ≤ v < user_id r' →
       ∃ j r'', (j < k)%nat ∧ remapped_df rm !! j = Some r'' ∧ user_id r'' = v) ∧
    (∀ v, 0 ≤ v < item_id r' →
       ∃ j r'', (j < k)%nat ∧ remapped_df rm !! j = Some r'' ∧ item_id r'' = v).
Proof.
  intros [_ (Hu & Hi & HF)]%remap_ids_inv k r' Hk.
  destruct (Forall2_lookup_r _ _ _ _ _ HF Hk)
    as (r & Hr & [Hpu Hlu] & [Hpi Hli] & _).
  split; intros v Hv.
  - destruct (lookup_lt_is_Some_2 (original_users rm) (Z.to_nat v)) as [y Hy].
    { apply lookup_lt_Some in Hlu. lia. }
    rewrite Hu in Hlu, Hy.
    destruct (unique_first_seen (user_id <$> df) k (user_id r)
                (Z.to_nat (user_id r')) (Z.to_nat v) y) as (j & Hj & Hlj);
      [by rewrite list_lookup_fmap, Hr|done|lia|done|].
    rewrite list_lookup_fmap in Hlj.
    destruct (df !! j) as [rj|] eqn:Hrj; [|done]. injection Hlj as <-.
    destruct (Forall2_lookup_l _ _ _ _ _ HF Hrj) as (rj' & Hrj' & [Hp Hl] & _).
    exists j, rj'. split_and!; [done..|].
    rewrite Hu in Hl.
    pose proof (NoDup_lookup _ _ _ _ (NoDup_unique _) Hl Hy). lia.
  - destruct (lookup_lt_is_Some_2 (original_items rm) (Z.to_nat v)) as [y Hy].
    { apply lookup_lt_Some in Hli. lia. }
    rewrite Hi in Hli, Hy.
    destruct (unique_first_seen (item_id <$> df) k (item_id r)
                (Z.to_nat (item_id r')) (Z.to_nat v) y) as (j & Hj & Hlj);
      [by rewrite list_lookup_fmap, Hr|done|lia|done|].
    rewrite list_lookup_fmap in Hlj.
    destruct (df !! j) as [rj|] eqn:Hrj; [|done]. injection Hlj as <-.
    destruct (Forall2_lookup_l _ _ _ _ _ HF Hrj)
      as (rj' & Hrj' & _ & [Hp Hl] & _).
    exists j, rj'. split_and!; [done..|].
    rewrite Hi in Hl.
    pose proof (NoDup_lookup _ _ _ _ (NoDup_unique _) Hl Hy). lia.
Qed.

Lemma indices_in_order_of_first_appearance_witness :
  ∃ rm,
    remap_ids (filter_min_ratings example_ratings) = Ok rm ∧
    remapped_df rm !! 20%nat = Some (Row 1 5 0) ∧
    ∀ v, 0 ≤ v < 1 →
      ∃ j r'', (j < 20)%nat ∧ remapped_df rm !! j = Some r'' ∧ user_id r'' = v.
Proof.
  destruct (remap_ids (filter_min_ratings example_ratings)) as [rm|e] eqn:Hrm.
  - exists rm. split; [reflexivity|].
    assert (remapped_df rm !! 20%nat = Some (Row 1 5 0)) as Hk.
    { vm_compute in Hrm. by injection Hrm as <-. }
    split; [exact Hk|].
    exact (proj1 (indices_in_order_of_first_appearance _ rm Hrm 20%nat _ Hk)).
  - vm_compute in Hrm. discriminate.
Defined.

(** ** Training pairs, test pairs and the lists per user *)

(** X4: after a run that ends well no test pair is a training pair, every
    pair of the remapped table is a training pair or a test pair, and
    the rows of the two tables that are written are the rows [u, i, 1]
    of these pairs: the training table and the test table have no row in
    common and together hold every rating of the filtered table. *)
Theorem train_and_test_partition `{Libraries} (seed negatives : Z)
    (ratings : DataFrame) (g0 : RandomState)
    (rm : remapped) (st : split_state) (g : RandomState) :
  pipeline seed negatives ratings g0 = Ok ((rm, st), g) →
  (∀ row, row ∈ df_train_ratings (save st) → row ∉ df_test_ratings (save st)) ∧
  (∀ u i, (u, i) ∈ ratings_set (remapped_df rm) ↔
          [u; i; 1] ∈ df_train_ratings (save st) ∨
          [u; i; 1] ∈ df_test_ratings (save st)) ∧
  (∀ row, row ∈ df_test_ratings (save st) →
     ∃ u i, row = [u; i; 1] ∧ (u, i) ∈ ratings_set (remapped_df rm)).
Proof.
  intros Hok%pipeline_Ok.
  destruct Hok as [Hne Hof Hpos Hpools Hlists Hratings Htests Hnegs].
  pose proof (test_pairs_in_ratings_set _ _ Hof) as Hsub.
  rewrite <-Htests in Hsub.
  assert (∀ u i, [u; i; 1] ∈ df_test_ratings (save st) ↔ (u, i) ∈ test_ratings st)
    as Htest.
  { intros u i. unfold save. simpl. rewrite list_elem_of_fmap. split.
    - by intros ([u' i'] & [= -> ->] & ?).
    - intros ?. by exists (u, i). }
  split_and!.
  - intros row (u & i & -> & Hp)%elem_of_df_train_ratings Hin.
    apply Htest in Hin. rewrite Hratings in Hp. set_solver.
  - intros u i. rewrite elem_of_df_train_ratings, Htest, Hratings. split.
    + intros Hp. destruct (decide ((u, i) ∈ test_ratings st)); [by right|left].
      exists u, i. split; [done|]. set_solver.
    + intros [(u' & i' & [= <- <-] & Hp)|Hp]; set_solver.
  - intros row Hrow. unfold save in Hrow. simpl in Hrow.
    apply list_elem_of_fmap in Hrow as ([u i] & -> & Hp).
    exists u, i. split; [done|]. set_solver.
Qed.

Lemma train_and_test_partition_witness :
  ∃ rm st g,
    @pipeline stable_libraries 0 3 example_ratings 0 = Ok ((rm, st), g) ∧
    ∀ row, row ∈ df_train_ratings (@save stable_libraries st) →
           row ∉ df_test_ratings (@save stable_libraries st).
Proof.
  destruct (@pipeline stable_libraries 0 3 example_ratings 0)
    as [[[rm st] g]|e] eqn:Hrun.
  - exists rm, st, g. split; [reflexivity|].
    exact (proj1 (@train_and_test_partition stable_libraries _ _ _ _ _ _ _ Hrun)).
  - vm_compute in Hrun. discriminate.
Defined.

(** X5: after a run that ends well the training table has as many rows as
    the remapped table has distinct pairs, less one per user; on a table
    in which no rating is repeated this is the number of rows that pass
    the filter less the number of users. *)
Theorem train_rows_count `{Libraries} (seed negatives : Z)
    (ratings : DataFrame) (g0 : RandomState)
    (rm : remapped) (st : split_state) (g : RandomState) :
  pipeline seed negatives ratings g0 = Ok ((rm, st), g) →
  (length (df_train_ratings (save st)) + length (original_users rm)
   = size (ratings_set (remapped_df rm)))%nat ∧
  (NoDup (pair_of <$> ratings) →
   (length (df_train_ratings (save st)) + length (original_users rm)
    = length (filter_min_ratings ratings))%nat).
Proof.
  intros Hok%pipeline_Ok.
  pose proof (run_length_tests _ _ _ _ _ _ Hok) as Hlen.
  destruct Hok as [Hne Hof Hpos Hpools Hlists Hratings Htests Hnegs].
  pose proof (test_pairs_in_ratings_set _ _ Hof) as Hsub.
  rewrite <-Htests in Hsub.
  assert (size (list_to_set (C:=gset (Z * Z)) (test_ratings st))
          = length (original_users rm)) as Hsize.
  { rewrite size_list_to_set, Hlen; [done|].
    rewrite Htests. apply NoDup_test_pairs, NoDup_seqZ. }
  assert (length (df_train_ratings (save st)) = size (all_ratings st)) as Htrain.
  { unfold save. simpl. rewrite length_fmap, set_iter_perm. done. }
  assert (length (df_train_ratings (save st)) + length (original_users rm)
          = size (ratings_set (remapped_df rm)))%nat as Hcount.
  { rewrite Htrain, Hratings, size_difference by done.
    apply subseteq_size in Hsub. lia. }
  split; [done|]. intros Hnd. rewrite Hcount.
  pose proof Hof as (_ & _ & HF). rewrite (Forall2_length _ _ _ HF).
  unfold ratings_set. rewrite size_list_to_set, length_fmap; [done|].
  apply remap_of_NoDup with (df := filter_min_ratings ratings);
    [done|by apply NoDup_fmap_filter].
Qed.

Lemma train_rows_count_witness :
  ∃ rm st g,
    @pipeline stable_libraries 0 3 example_ratings 0 = Ok ((rm, st), g) ∧
    length (df_train_ratings (@save stable_libraries st)) = 39%nat ∧
    (length (df_train_ratings (@save stable_libraries st))
     + length (original_users rm)
     = length (filter_min_ratings example_ratings))%nat.
Proof.
  destruct (@pipeline stable_libraries 0 3 example_ratings 0)
    as [[[rm st] g]|e] eqn:Hrun.
  - exists rm, st, g. split; [reflexivity|].
    split.
    { vm_compute in Hrun. by injection Hrun as <- <- <-. }
    apply (proj2 (@train_rows_count stable_libraries _ _ _ _ _ _ _ Hrun)).
    apply (bool_decide_unpack _). vm_compute. exact I.
  - vm_compute in Hrun. discriminate.
Defined.

(** X6: after a run that ends well the list left for a user holds the
    items of the rows of the user other than the held-out row, in
    ascending order of timestamp: the rows of the user are these rows
    followed by the held-out row, and no row is later than the one that
    follows it. *)
Theorem histories_are_chronological `{Libraries} (seed negatives : Z)
    (ratings : DataFrame) (g0 : RandomState)
    (rm : remapped) (st : split_state) (g : RandomState) :
  pipeline seed negatives ratings g0 = Ok ((rm, st), g) →
  ∀ u, 0 ≤ u < len (original_users rm) →
    ∃ rows r,
      rows ++ [r] ≡ₚ group (remapped_df rm) u ∧
      StronglySorted by_timestamp (rows ++ [r]) ∧
      items_of (user_to_items st) u = item_id <$> rows ∧
      test_ratings st !! Z.to_nat u = Some (u, item_id r).
Proof.
  intros Hok%pipeline_Ok u Hu.
  destruct Hok as [Hne Hof Hpos Hpools Hlists Hratings Htests Hnegs].
  destruct (held_out_row _ _ u Hof Hu) as (r & Hlast & Hitem & _).
  apply last_Some in Hlast as [rows Hrows].
  exists rows, r. split_and!.
  - by rewrite <-Hrows, group_sorted_df.
  - rewrite <-Hrows. apply StronglySorted_filter.
    apply Sorted_StronglySorted; [apply _|]. apply sort_values_sorted.
  - rewrite Hlists, decide_True by (apply elem_of_seqZ; lia).
    unfold history. rewrite items_of_lists_before, Hrows, fmap_app. simpl.
    by rewrite removelast_last.
  - rewrite Htests, (test_pair_lookup _ _ _ Hu). unfold test_pair.
    by rewrite Hitem.
Qed.

Lemma histories_are_chronological_witness :
  ∃ rm st g,
    @pipeline stable_libraries 0 3 example_ratings 0 = Ok ((rm, st), g) ∧
    items_of (user_to_items st) 0
      = [19; 18; 17; 16; 15; 14; 13; 12; 11; 10; 9; 8; 7; 6; 5; 4; 3; 2; 1] ∧
    ∃ rows r,
      rows ++ [r] ≡ₚ group (remapped_df rm) 0 ∧
      StronglySorted by_timestamp (rows ++ [r]) ∧
      items_of (user_to_items st) 0 = item_id <$> rows ∧
      test_ratings st !! Z.to_nat 0 = Some (0, item_id r).
Proof.
  destruct (@pipeline stable_libraries 0 3 example_ratings 0)
    as [[[rm st] g]|e] eqn:Hrun.
  - exists rm, st, g. split; [reflexivity|].
    split.
    { vm_compute in Hrun. by injection Hrun as <- <- <-. }
    apply (@histories_are_chronological stable_libraries _ _ _ _ _ _ _ Hrun).
    vm_compute in Hrun. injection Hrun as <- _ _. vm_compute. by split.
  - vm_compute in Hrun. discriminate.
Defined.

(** X7: after a run that ends well a pair [(u, i)] is a training pair
    exactly when [i] is in the list left for [u] and [(u, i)] is not the
    test pair; every item of the list is paired with [u] in the remapped
    table.  On a table in which no rating is repeated the held-out item
    is not in the list, and the training pairs of [u] are exactly the
    items of the list. *)
Theorem training_pairs_and_histories `{Libraries} (seed negatives : Z)
    (ratings : DataFrame) (g0 : RandomState)
    (rm : remapped) (st : split_state) (g : RandomState) :
  pipeline seed negatives ratings g0 = Ok ((rm, st), g) →
  ∀ u, 0 ≤ u < len (original_users rm) →
    (∀ i, (u, i) ∈ all_ratings st ↔
          i ∈ items_of (user_to_items st) u ∧ (u, i) ∉ test_ratings st) ∧
    (∀ i, i ∈ items_of (user_to_items st) u →
          (u, i) ∈ ratings_set (remapped_df rm)) ∧
    (NoDup (pair_of <$> ratings) →
     ∀ i, ((u, i) ∈ test_ratings st → i ∉ items_of (user_to_items st) u) ∧
          ((u, i) ∈ all_ratings st ↔ i ∈ items_of (user_to_items st) u)).
Proof.
  intros Hok%pipeline_Ok u Hu.
  destruct Hok as [Hne Hof Hpos Hpools Hlists Hratings Htests Hnegs].
  assert (u ∈ user_indices rm) as Hin by (apply elem_of_seqZ; lia).
  destruct (loop_ready_before _ _ Hof) as [_ Hready].
  destruct (Hready u Hin) as (_ & Hnonempty & _).
  destruct (last (items_of (lists_before rm) u)) as [ti|] eqn:Hlast;
    [|by apply last_None in Hlast].
  pose proof Hlast as [h Hh]%last_Some.
  assert (items_of (user_to_items st) u = h) as Hhist.
  { rewrite Hlists, decide_True by done. unfold history.
    by rewrite Hh, removelast_last. }
  assert (∀ i, (u, i) ∈ test_ratings st ↔ i = ti) as Htest.
  { intros i. rewrite Htests, list_elem_of_fmap. unfold test_pair, held_out.
    split.
    - intros (u' & [= <- ->] & _). by rewrite Hlast.
    - intros ->. exists u. by rewrite Hlast. }
  assert (∀ i, (u, i) ∈ ratings_set (remapped_df rm) ↔ i ∈ h ∨ i = ti) as Hpairs.
  { intros i. rewrite <-elem_of_lists_before, Hh, elem_of_app.
    by rewrite list_elem_of_singleton. }
  assert (∀ i, (u, i) ∈ all_ratings st ↔ i ∈ h ∧ i ≠ ti) as Hall.
  { intros i. rewrite Hratings, elem_of_difference, elem_of_list_to_set.
    rewrite Hpairs, Htest. naive_solver. }
  rewrite Hhist. split_and!.
  - intros i. rewrite Hall, Htest. done.
  - intros i Hi. apply Hpairs. by left.
  - intros Hnd i.
    assert (ti ∉ h) as Hti.
    { pose proof (NoDup_items_before _ _ u Hof
                    (NoDup_fmap_filter _ _ _ Hnd)) as Hnd'.
      rewrite Hh in Hnd'. apply NoDup_app in Hnd' as (_ & Hnd' & _).
      intros Hx. apply (Hnd' ti Hx). left. }
    rewrite Hall, Htest. split; [by intros ->|]. naive_solver.
Qed.

Lemma training_pairs_and_histories_witness :
  ∃ rm st g,
    @pipeline stable_libraries 0 3 example_ratings 0 = Ok ((rm, st), g) ∧
    ∀ i, (1, i) ∈ all_ratings st ↔
         i ∈ items_of (user_to_items st) 1 ∧ (1, i) ∉ test_ratings st.
Proof.
  destruct (@pipeline stable_libraries 0 3 example_ratings 0)
    as [[[rm st] g]|e] eqn:Hrun.
  - exists rm, st, g. split; [reflexivity|].
    apply (@training_pairs_and_histories stable_libraries _ _ _ _ _ _ _ Hrun).
    vm_compute in Hrun. injection Hrun as <- _ _. vm_compute. by split.
  - vm_compute in Hrun. discriminate.
Defined.

(** ** The candidates do not depend on how the set is enumerated *)

Lemma StronglySorted_le_lt (l : list Z) :
  StronglySorted Z.le l → NoDup l → StronglySorted Z.lt l.
Proof.
  induction 1 as [|x l Hl IH Hx]; intros Hnd; [constructor|].
  apply NoDup_cons in Hnd as [Hxl Hnd].
  constructor; [by apply IH|].
  rewrite Forall_forall in Hx |- *. intros y Hy.
  specialize (Hx y Hy). assert (x ≠ y) by (by intros ->). lia.
Qed.

(** X8: sorting makes the sequence of candidates independent of the order
    in which the difference of the two sets is enumerated: whatever that
    order, the sorted sequence is the same, strictly ascending (so
    without repetition), and holds exactly the items of [all_items] that
    are not in the history. *)
Theorem candidates_order_independent (all_items : gset Z) (history : list Z) :
  (∀ l, l ≡ₚ elements (all_items ∖ list_to_set history) →
        merge_sort Z.le l = candidates all_items history) ∧
  StronglySorted Z.lt (candidates all_items history) ∧
  ∀ i, i ∈ candidates all_items history ↔ i ∈ all_items ∧ i ∉ history.
Proof.
  split_and!.
  - intros l Hl. unfold candidates. apply (Sorted_unique Z.le).
    + apply (Sorted_merge_sort Z.le).
    + apply (Sorted_merge_sort Z.le).
    + by rewrite !merge_sort_Permutation.
  - unfold candidates. apply StronglySorted_le_lt.
    + apply Sorted_StronglySorted; [apply _|]. apply (Sorted_merge_sort Z.le).
    + rewrite merge_sort_Permutation. apply NoDup_elements.
  - intros i. unfold candidates.
    rewrite merge_sort_Permutation, elem_of_elements, elem_of_difference,
      elem_of_list_to_set. done.
Qed.

(** ** How the run can fail *)

Section Failures.
Context `{Libraries}.

Lemma pool_nil rm d0 u :
  pool (catalogue rm) d0 u = [] ↔
  ∀ i, 0 ≤ i < len (original_items rm) → i ∈ history d0 u.
Proof.
  rewrite pool_catalogue. split.
  - intros Hnil i Hi.
    destruct (decide (i ∈ history d0 u)) as [|Hni]; [done|].
    assert (i ∈ filter (λ i, i ∉ history d0 u)
                  (range (len (original_items rm)))) as Hin.
    { apply list_elem_of_filter. split; [done|]. apply elem_of_seqZ. lia. }
    rewrite Hnil in Hin. by apply elem_of_nil in Hin.
  - intros Hall. apply filter_none.
    intros i Hi%elem_of_seqZ Hni. apply Hni, Hall. lia.
Qed.

End Failures.

(** X9: how the run can fail before the files are written, given the
    table that the load returned.  A seed that [np.random.seed] does not
    take ends the run in [ValueError] at line 50.  On any other seed the
    run ends in [AssertionError] exactly when no row passes the filter;
    when some row does, the remapping succeeds and the run ends in an
    exception exactly when the loop does, in the exception of the first
    call of [np.random.choice] that raises.  For a number of negatives
    that the library delivers this is the [ValueError] of a draw from an
    empty pool: the number is not zero and for some user the list left
    after the pop holds every item of the catalogue. *)
Theorem pipeline_failures `{Libraries} (seed negatives : Z)
    (ratings : DataFrame) (g0 : RandomState) :
  (¬ (0 ≤ seed < 2 ^ 32) →
   pipeline seed negatives ratings g0 = Err ValueError) ∧
  (0 ≤ seed < 2 ^ 32 →
   (pipeline seed negatives ratings g0 = Err AssertionError ↔
    filter_min_ratings ratings = []) ∧
   (filter_min_ratings ratings ≠ [] →
    ∃ rm,
      remap_ids (filter_min_ratings ratings) = Ok rm ∧
      (∀ e, pipeline seed negatives ratings g0 = Err e ↔
            loop_error negatives
              (pool (catalogue rm) (lists_before rm) <$> user_indices rm)
            = Some e) ∧
      (∀ e, pipeline seed negatives ratings g0 = Err e → library_error e) ∧
      (np_size_error negatives = None →
       ∀ e, pipeline seed negatives ratings g0 = Err e ↔
            e = ValueError ∧ negatives ≠ 0 ∧
            ∃ u, 0 ≤ u < len (original_users rm) ∧
                 ∀ i, 0 ≤ i < len (original_items rm) →
                      i ∈ history (lists_before rm) u))).
Proof.
  split; [apply pipeline_seed|]. intros Hseed.
  assert (filter_min_ratings ratings ≠ [] →
    ∃ rm,
      remap_ids (filter_min_ratings ratings) = Ok rm ∧
      (∀ e, pipeline seed negatives ratings g0 = Err e ↔
            loop_error negatives
              (pool (catalogue rm) (lists_before rm) <$> user_indices rm)
            = Some e) ∧
      (∀ e, pipeline seed negatives ratings g0 = Err e → library_error e) ∧
      (np_size_error negatives = None →
       ∀ e, pipeline seed negatives ratings g0 = Err e ↔
            e = ValueError ∧ negatives ≠ 0 ∧
            ∃ u, 0 ≤ u < len (original_users rm) ∧
                 ∀ i, 0 ≤ i < len (original_items rm) →
                      i ∈ history (lists_before rm) u)) as Hnonempty.
  { intros Hne.
    destruct (pipeline_spec seed negatives ratings g0 Hseed Hne)
      as (rm & Hrm & Hp).
    exists rm. split; [done|].
    assert (∀ e, pipeline seed negatives ratings g0 = Err e ↔
              loop_error negatives
                (pool (catalogue rm) (lists_before rm) <$> user_indices rm)
              = Some e) as Herr.
    { intros e. rewrite Hp. destruct (loop_error _ _) as [e'|].
      - split; by intros [= ->].
      - split; [|done]. simpl. done. }
    assert (Exists (λ a, a = [])
              (pool (catalogue rm) (lists_before rm) <$> user_indices rm) ↔
            ∃ u, 0 ≤ u < len (original_users rm) ∧
                 ∀ i, 0 ≤ i < len (original_items rm) →
                      i ∈ history (lists_before rm) u) as Hex.
    { rewrite Exists_exists. split.
      - intros (p & (u & -> & Hu%elem_of_seqZ)%list_elem_of_fmap & Hnil).
        exists u. split; [lia|]. by apply pool_nil.
      - intros (u & Hu & Hall).
        exists (pool (catalogue rm) (lists_before rm) u). split.
        + apply list_elem_of_fmap. exists u. split; [done|].
          apply elem_of_seqZ. lia.
        + by apply pool_nil. }
    split_and!.
    - done.
    - intros e He%Herr. by eapply loop_error_Some.
    - intros Hsize e.
      rewrite Herr, (loop_error_delivered _ _ _ Hsize), Hex. done. }
  split; [|done]. split.
  - intros Herr.
    destruct (decide (filter_min_ratings ratings = [])) as [|Hne]; [done|].
    destruct (Hnonempty Hne) as (rm & _ & _ & Hlib & _).
    destruct (Hlib _ Herr) as [?|[?|?]]; discriminate.
  - intros Hnil. by apply pipeline_empty.
Qed.

Lemma pipeline_failures_witness :
  @pipeline stable_libraries (-1) 3 example_ratings 0 = Err ValueError ∧
  @pipeline stable_libraries 0 3 sparse_ratings 0 = Err AssertionError ∧
  filter_min_ratings repeated_ratings ≠ [] ∧
  @pipeline stable_libraries 0 3 repeated_ratings 0 = Err ValueError ∧
  @pipeline stable_libraries 0 (2 ^ 64) example_ratings 0 = Err OverflowError ∧
  ∃ rm,
    remap_ids (filter_min_ratings repeated_ratings) = Ok rm ∧
    ∀ e, @pipeline stable_libraries 0 3 repeated_ratings 0 = Err e →
         library_error e.
Proof.
  assert (filter_min_ratings repeated_ratings ≠ []) as Hne
    by (vm_compute; discriminate).
  assert (0 ≤ 0 < 2 ^ 32) as Hseed by lia.
  split; [reflexivity|]. split; [reflexivity|].
  split; [exact Hne|]. split; [reflexivity|]. split; [reflexivity|].
  destruct (proj2 (proj2 (@pipeline_failures stable_libraries 0 3
                            repeated_ratings 0) Hseed) Hne)
    as (rm & Hrm & _ & Hlib & _).
  exists rm. split; [exact Hrm|exact Hlib].
Defined.

(** ** The reader of [eval_ncf.py] *)


Section Reader.
Import EvalNcf EvalNcfFacts.

Lemma read_lines_snoc lines l :
  read_lines (lines ++ [l]) = read_line (read_lines lines) l.
Proof. unfold read_lines. by rewrite foldl_app. Qed.

Lemma read_line_csv_line st r :
  read_line st (csv_line r)
  = match r with
    | [a; b; c] =>
        {| user := user st ++ [pretty a]; item := item st ++ [pretty b];
           score := score st ++ [pretty c]; num_samples := num_samples st + 1 |}
    | _ => st
    end.
Proof.
  unfold read_line. rewrite split_strip_csv_line.
  by destruct r as [|a [|b [|c [|d r]]]].
Qed.

Lemma foldl_read_line_csv st df :
  foldl read_line st (csv_line <$> df)
  = {| user := user st ++ ((λ t, pretty t.1.1) <$> rows_of_three df);
       item := item st ++ ((λ t, pretty t.1.2) <$> rows_of_three df);
       score := score st ++ ((λ t, pretty t.2) <$> rows_of_three df);
       num_samples := num_samples st + len (rows_of_three df) |}.
Proof.
  revert st. induction df as [|r df IH]; intros st.
  - change (rows_of_three []) with (@nil (Z * Z * Z)).
    destruct st as [us its ss n]. simpl. rewrite !app_nil_r. f_equal.
    unfold len. simpl. lia.
  - rewrite fmap_cons. simpl foldl. rewrite IH, read_line_csv_line.
    destruct r as [|a [|b [|c [|d r]]]]; try done.
    change (rows_of_three ([a; b; c] :: df)) with ((a, b, c) :: rows_of_three df).
    simpl. rewrite <-!app_assoc. simpl. f_equal.
    unfold len. simpl length. lia.
Qed.

(** X10: the reading loop keeps exactly the lines that, once stripped,
    hold two tabs, in the order of the file, and counts them; what it
    appends for a kept line are the three pieces of the stripped line
    between the tabs, as they are written. *)
Theorem reading_keeps_lines_of_three_fields (lines : list string) :
  num_samples (read_lines lines) = len (kept_lines lines) ∧
  length (user (read_lines lines)) = length (kept_lines lines) ∧
  length (item (read_lines lines)) = length (kept_lines lines) ∧
  length (score (read_lines lines)) = length (kept_lines lines) ∧
  ∀ k l, kept_lines lines !! k = Some l →
    ∃ a b c,
      user (read_lines lines) !! k = Some a ∧
      item (read_lines lines) !! k = Some b ∧
      score (read_lines lines) !! k = Some c ∧
      strip l = a +:+ String TAB (b +:+ String TAB c) ∧
      count TAB a = 0%nat ∧ count TAB b = 0%nat ∧ count TAB c = 0%nat.
Proof.
  unfold kept_lines. induction lines as [|l lines IH] using rev_ind.
  - split_and!; try done.
  - rewrite read_lines_snoc, filter_app.
    destruct IH as (Hn & Hu & Hi & Hs & IH).
    destruct (decide (count TAB (strip l) = 2%nat)) as [Hl|Hl].
    + rewrite (filter_cons_True _ l) by done. rewrite filter_nil.
      destruct (read_line_kept (read_lines lines) l Hl)
        as (a & b & c & -> & Hline & Ha & Hb & Hc).
      simpl. rewrite !length_app. simpl. split_and!; try lia.
      { unfold len in *. rewrite length_app. simpl. lia. }
      intros k l' Hk. apply lookup_app_Some in Hk as [Hk|[Hge Hk]].
      * destruct (IH k l' Hk) as (a' & b' & c' & ? & ? & ? & ?).
        exists a', b', c'. rewrite !lookup_app_l by (by eapply lookup_lt_Some).
        done.
      * apply list_lookup_singleton_Some in Hk as [Hk <-].
        assert (k = length (filter (λ l, count TAB (strip l) = 2%nat) lines))
          as -> by lia.
        exists a, b, c.
        rewrite <-Hu at 1. rewrite <-Hi at 1. rewrite <-Hs at 1.
        rewrite !list_lookup_middle by done. done.
    + rewrite (filter_cons_False _ l) by done. rewrite filter_nil, app_nil_r.
      rewrite read_line_skipped by done. done.
Qed.

(** X11: a line of three fields whose first or last field is white space
    only, or empty, is skipped: stripping the line takes the tab next to
    that field away as well. *)
Theorem reading_skips_blank_outer_field (st : parsed) (a b c : string) :
  count TAB a = 0%nat → count TAB b = 0%nat → count TAB c = 0%nat →
  blank a = true ∨ blank c = true →
  read_line st (a +:+ String TAB (b +:+ String TAB c)) = st.
Proof.
  intros Ha Hb Hc Hblank. apply read_line_skipped.
  assert (count TAB (a +:+ String TAB (b +:+ String TAB c)) = 2%nat) as Hcount.
  { rewrite count_app, count_TAB_cons, count_app, count_TAB_cons. lia. }
  destruct Hblank as [Hblank|Hblank].
  - pose proof (count_strip_leading a (b +:+ String TAB c) Hblank). lia.
  - pose proof (count_strip_trailing (a +:+ String TAB b) c Hblank) as Hlt.
    rewrite string_append_assoc in Hlt.
    change (String TAB b +:+ String TAB c) with (String TAB (b +:+ String TAB c)) in Hlt.
    lia.
Qed.

Lemma reading_skips_blank_outer_field_witness :
  read_line (Parsed [] [] [] 0)
    (EmptyString +:+ String TAB ("3" +:+ String TAB (String "1" (String LF EmptyString))))
  = Parsed [] [] [] 0.
Proof.
  apply (reading_skips_blank_outer_field (Parsed [] [] [] 0)
           EmptyString "3" (String "1" (String LF EmptyString)));
    [reflexivity..|by left].
Defined.

(** X12: a line of three fields of which the first and the last are not
    empty and hold no white space, followed by white space, is kept with
    its fields as written; the middle field may be empty or hold
    spaces. *)
Theorem reading_keeps_a_line_of_three_fields (st : parsed) (a b c w : string) :
  token a → count TAB b = 0%nat → token c → blank w = true →
  read_line st ((a +:+ String TAB (b +:+ String TAB c)) +:+ w)
  = {| user := user st ++ [a]; item := item st ++ [b];
       score := score st ++ [c]; num_samples := num_samples st + 1 |}.
Proof.
  intros [Hane Ha] Hb [Hcne Hc] Hw. unfold read_line.
  assert (strip ((a +:+ String TAB (b +:+ String TAB c)) +:+ w)
          = a +:+ String TAB (b +:+ String TAB c)) as ->.
  { unfold strip. rewrite !string_append_assoc.
    rewrite lstrip_solid by done.
    change (String TAB (b +:+ String TAB c) +:+ w)
      with (String TAB EmptyString +:+ ((b +:+ String TAB c) +:+ w)).
    rewrite string_append_assoc.
    change (String TAB c +:+ w) with (String TAB EmptyString +:+ (c +:+ w)).
    rewrite <-!string_append_assoc.
    rewrite (string_append_assoc _ c w).
    rewrite rstrip_app_nonempty; rewrite rstrip_app_blank, rstrip_solid by done;
      [|done].
    by rewrite !string_append_assoc. }
  rewrite split_app by (by apply count_solid).
  rewrite split_app by done.
  rewrite split_solid by (by apply count_solid).
  rewrite decide_False by (simpl; lia). done.
Qed.

Lemma reading_keeps_a_line_of_three_fields_witness :
  read_line (Parsed [] [] [] 0)
    (("12" +:+ String TAB ("" +:+ String TAB "1")) +:+ String LF EmptyString)
  = Parsed ["12"] [""] ["1"] 1.
Proof.
  apply (reading_keeps_a_line_of_three_fields (Parsed [] [] [] 0)
           "12" "" "1" (String LF EmptyString));
    [by split|reflexivity|by split|reflexivity].
Defined.

Lemma get_movielens_iter_to_csv (df : list (list Z)) :
  get_movielens_iter (to_csv df)
  = {| user := (λ t, pretty t.1.1) <$> rows_of_three df;
       item := (λ t, pretty t.1.2) <$> rows_of_three df;
       score := (λ t, pretty t.2) <$> rows_of_three df;
       num_samples := len (rows_of_three df) |}.
Proof.
  unfold get_movielens_iter, read_lines.
  rewrite universal_newlines_id by apply count_CR_to_csv.
  rewrite file_lines_to_csv. by rewrite foldl_read_line_csv.
Qed.

Lemma rows_of_three_with_fake_rating pairs :
  rows_of_three (with_fake_rating <$> pairs) = (λ p, (p.1, p.2, 1)) <$> pairs.
Proof.
  induction pairs as [|p pairs IH]; [done|].
  rewrite !fmap_cons, <-IH. reflexivity.
Qed.

Lemma rows_of_three_none df :
  Forall (λ r, length r ≠ 3%nat) df → rows_of_three df = [].
Proof.
  induction 1 as [|r df Hr _ IH]; [done|].
  change (rows_of_three (r :: df))
    with (from_option (λ t, t :: rows_of_three df) (rows_of_three df)
            match r with [a; b; c] => Some (a, b, c) | _ => None end).
  rewrite IH. by destruct r as [|a [|b [|c [|d r]]]].
Qed.

Lemma rows_of_three_all df :
  Forall (λ r, length r = 3%nat) df → length (rows_of_three df) = length df.
Proof.
  induction 1 as [|r df Hr _ IH]; [done|].
  destruct r as [|a [|b [|c [|d r]]]]; try done.
  change (rows_of_three ([a; b; c] :: df)) with ((a, b, c) :: rows_of_three df).
  simpl. by rewrite IH.
Qed.

(** X13: read from the text that [to_csv] writes for a table of
    integers, the loop keeps exactly the rows of three values, in order,
    with the decimal numerals of the values as the three fields; so it
    counts every row of a table of three columns, and reads nothing from
    a table without a row of three values. *)
Theorem reading_what_to_csv_wrote (df : list (list Z)) :
  get_movielens_iter (to_csv df)
  = {| user := (λ t, pretty t.1.1) <$> rows_of_three df;
       item := (λ t, pretty t.1.2) <$> rows_of_three df;
       score := (λ t, pretty t.2) <$> rows_of_three df;
       num_samples := len (rows_of_three df) |} ∧
  (Forall (λ r, length r = 3%nat) df →
   num_samples (get_movielens_iter (to_csv df)) = len df) ∧
  (Forall (λ r, length r ≠ 3%nat) df →
   get_movielens_iter (to_csv df) = Parsed [] [] [] 0).
Proof.
  rewrite get_movielens_iter_to_csv. split_and!; [done|..].
  - intros Hdf. unfold len. simpl. by rewrite rows_of_three_all.
  - intros Hdf. by rewrite rows_of_three_none.
Qed.

(** X14: after a run that ends well, the loop reads from the training file
    one sample for every training pair and from the test file one sample
    for every user, with the numerals of the user index and of the item
    index and the score [1]; from the file of negatives it reads nothing
    unless three negatives were drawn per user. *)
Theorem reading_the_written_files `{Libraries} (seed negatives : Z)
    (ratings : DataFrame) (g0 : RandomState)
    (rm : remapped) (st : split_state) (g : RandomState) :
  pipeline seed negatives ratings g0 = Ok ((rm, st), g) →
  let fs := write (save st) in
  let samples (pairs : list (Z * Z)) :=
    {| user := (λ p, pretty p.1) <$> pairs;
       item := (λ p, pretty p.2) <$> pairs;
       score := (λ _, "1") <$> pairs;
       num_samples := len pairs |} in
  get_movielens_iter (train_ratings_file fs)
    = samples (set_iter (all_ratings st)) ∧
  num_samples (get_movielens_iter (train_ratings_file fs))
    = Z.of_nat (size (all_ratings st)) ∧
  get_movielens_iter (test_ratings_file fs) = samples (test_ratings st) ∧
  num_samples (get_movielens_iter (test_ratings_file fs))
    = len (original_users rm) ∧
  (negatives ≠ 3 →
   get_movielens_iter (test_negative_file fs) = Parsed [] [] [] 0).
Proof.
  intros Hok%pipeline_Ok. cbv zeta. unfold write, save.
  cbn [train_ratings_file test_ratings_file test_negative_file
       df_train_ratings df_test_ratings df_test_negs].
  assert (∀ pairs,
    get_movielens_iter (to_csv (with_fake_rating <$> pairs))
    = {| user := (λ p, pretty p.1) <$> pairs;
         item := (λ p, pretty p.2) <$> pairs;
         score := (λ _, "1") <$> pairs;
         num_samples := len pairs |}) as Hpairs.
  { intros pairs. rewrite get_movielens_iter_to_csv.
    rewrite rows_of_three_with_fake_rating, <-!list_fmap_compose.
    unfold len. by rewrite length_fmap. }
  rewrite !Hpairs. cbn [num_samples]. split_and!; try done.
  - unfold len. f_equal.
    by rewrite (Permutation_length (set_iter_perm _)).
  - unfold len. f_equal. apply (run_length_tests _ _ _ _ _ _ Hok).
  - intros Hneg. rewrite get_movielens_iter_to_csv.
    rewrite rows_of_three_none; [done|].
    apply Forall_lookup. intros k negs Hk Hlen.
    destruct (run_negs_lookup _ _ _ _ _ _ (Z.of_nat k) negs Hok) as (_ & Hl & _).
    + lia.
    + by rewrite Nat2Z.id.
    + unfold len in Hl. lia.
Qed.

Lemma reading_the_written_files_witness :
  ∃ rm st g,
    @pipeline stable_libraries 0 4 example_ratings 0 = Ok ((rm, st), g) ∧
    num_samples (get_movielens_iter (train_ratings_file (write (@save stable_libraries st))))
      = 39 ∧
    num_samples (get_movielens_iter (test_ratings_file (write (@save stable_libraries st))))
      = 2 ∧
    get_movielens_iter (test_negative_file (write (@save stable_libraries st)))
      = Parsed [] [] [] 0.
Proof.
  destruct (@pipeline stable_libraries 0 4 example_ratings 0)
    as [[[rm st] g]|e] eqn:Hrun.
  - exists rm, st, g. split; [reflexivity|].
    destruct (@reading_the_written_files stable_libraries _ _ _ _ _ _ _ Hrun)
      as (_ & Htrain & _ & Htest & Hneg).
    rewrite Htrain, Htest, Hneg by done. clear Htrain Htest Hneg.
    vm_compute in Hrun. injection Hrun as <- <- _. vm_compute.
    repeat split.
  - vm_compute in Hrun. discriminate.
Defined.

(** X15: the files determine the tables: two tables of integers are
    written as the same text only if they are the same table, row by
    row and value by value; an output file has one line feed per row. *)
Theorem to_csv_lossless (df1 df2 : list (list Z)) :
  (to_csv df1 = to_csv df2 ↔ df1 = df2) ∧
  count LF (to_csv df1) = length df1.
Proof.
  split; [split; [apply to_csv_eq_inv|by intros ->]|].
  induction df1 as [|r df IH]; [done|].
  rewrite to_csv_cons, csv_line_body, !count_app, IH.
  rewrite count_csv_body by done. simpl. lia.
Qed.

End Reader.
